(** * train.py: fine-tuning script for Florence-2 on a JSONL detection dataset

    A shallow embedding of [train.py]: the two dataset classes, the
    collate function, the data loaders the script builds and the
    training loop, written in a state-and-exception monad over an
    explicit [World].  Calls into the libraries the script rides on
    (json, PIL, transformers, torch, accelerate) are answered by the
    oracles of a [Runtime] and recorded in logs, so that the order and
    the arguments of the calls can be stated and proved. *)

From Stdlib Require Import ZArith Ascii String List DecimalString DecimalNat Lia.
From stdpp Require Import base gmap list strings.

Set Warnings "-register-all".
Local Open Scope string_scope.
Local Open Scope list_scope.

(** ** Python exceptions and results *)

Inductive exn : Type :=
| JSONDecodeError (doc : string)
| IndexError (msg : string)
| FileNotFoundError (msg : string)
| OSError (msg : string)
| KeyError (key : string)
| TypeError (msg : string)
| ValueError (msg : string)
| UnboundLocalError (var : string)
| ZeroDivisionError
| AttributeError (msg : string).

Inductive result (A : Type) : Type :=
| Ok (a : A)
| Raise (e : exn).
Arguments Ok {A} a.
Arguments Raise {A} e.

(** ** JSON values, as [json.loads] builds them *)

Inductive json : Type :=
| JNull
| JBool (b : bool)
| JInt (z : Z)
| JFloat (literal : string)
| JStr (s : string)
| JList (items : list json)
| JDict (items : list (string * json)).

Fixpoint assoc (k : string) (kvs : list (string * json)) : option json :=
  match kvs with
  | [] => None
  | (k', v) :: rest => if String.eqb k k' then Some v else assoc k rest
  end.

(** [obj[key]] for a string key: only a dict can be subscripted so. *)
Definition subscript (obj : json) (key : string) : result json :=
  match obj with
  | JDict kvs =>
      match assoc key kvs with
      | Some v => Ok v
      | None => Raise (KeyError key)
      end
  | _ => Raise (TypeError "object is not subscriptable by str")
  end.

(** [os.path.join] with two components (POSIX). *)
Definition ends_with_slash (s : string) : bool :=
  match String.get (String.length s - 1) s with
  | Some c => Ascii.eqb c "/"%char
  | None => false
  end.

Definition starts_with_slash (s : string) : bool :=
  match s with
  | String c _ => Ascii.eqb c "/"%char
  | EmptyString => false
  end.

Definition os_path_join (a b : string) : string :=
  if starts_with_slash b then b
  else if (String.length a =? 0)%nat || ends_with_slash a then a +:+ b
  else a +:+ "/" +:+ b.

(** [str(n)] for a non-negative integer. *)
Definition str_of_nat (n : nat) : string :=
  NilEmpty.string_of_uint (Nat.to_uint n).

(** ** Module-level constants of the script *)

Definition BATCH_SIZE : nat := 4.
Definition gradient_accumulation_steps : nat := 2.
Definition NUM_WORKERS : nat := 0.
Definition epochs : nat := 8.

Definition img_dir : string := "./images".
Definition train_labels : string := "./annotations/train.jsonl".
Definition test_labels : string := "./annotations/test.jsonl".
Definition output_dir : string := "./model_checkpoints".

Definition CHECKPOINT : string := "microsoft/Florence-2-base-ft".

(** ** Calls into the training framework

    Every call the training loop makes into torch, transformers or
    accelerate is recorded as an [Event]; a call that returns a value the
    script uses ([EvTokenize], [EvForward]) carries that value, and
    [print(f"<text>{value}")] is recorded with its text and its value. *)

Inductive Event (features tensor num : Type) : Type :=
| EvAccelerator (gradient_accumulation_steps : nat)
| EvFromPretrained (class checkpoint : string)
| EvAdamW (lr : num)
| EvGetScheduler (name : string) (num_warmup_steps num_training_steps : nat)
| EvPrepare
| EvModelTrain
| EvModelEval
| EvAccumulateEnter
| EvAccumulateExit
| EvNoGradEnter
| EvNoGradExit
| EvTokenize (text : list json) (input_ids : tensor)
| EvForward (input_ids pixel_values labels : tensor) (loss : tensor)
| EvBackward (loss : tensor)
| EvOptimizerStep
| EvSchedulerStep
| EvZeroGrad
| EvPrint (text : string) (value : num)
| EvMakedirs (path : string) (exist_ok : bool)
| EvSaveModel (path : string).
Arguments EvAccelerator {features tensor num}.
Arguments EvFromPretrained {features tensor num}.
Arguments EvAdamW {features tensor num}.
Arguments EvGetScheduler {features tensor num}.
Arguments EvPrepare {features tensor num}.
Arguments EvModelTrain {features tensor num}.
Arguments EvModelEval {features tensor num}.
Arguments EvAccumulateEnter {features tensor num}.
Arguments EvAccumulateExit {features tensor num}.
Arguments EvNoGradEnter {features tensor num}.
Arguments EvNoGradExit {features tensor num}.
Arguments EvTokenize {features tensor num}.
Arguments EvForward {features tensor num}.
Arguments EvBackward {features tensor num}.
Arguments EvOptimizerStep {features tensor num}.
Arguments EvSchedulerStep {features tensor num}.
Arguments EvZeroGrad {features tensor num}.
Arguments EvPrint {features tensor num}.
Arguments EvMakedirs {features tensor num}.
Arguments EvSaveModel {features tensor num}.

(** What the data pipeline does outside the training framework: the
    image files it opens and the batches it hands to the processor. *)
Inductive DataEvent (image : Type) : Type :=
| DImageOpen (path : string)
| DProcessor (text : list json) (images : list image).
Arguments DImageOpen {image}.
Arguments DProcessor {image}.

(** ** The runtime: files, libraries and the model, as oracles

    Opening the annotation file, [json.loads] and [Image.open] may raise.
    The other library calls (loading the pretrained model, the processor,
    the forward and backward passes, [os.makedirs], [save_model]) are
    taken to return. *)

Class Runtime : Type := {
  image : Type;
  features : Type;
  tensor : Type;
  num : Type;
  (* [open(path, 'r')] followed by iteration over the lines *)
  file_lines : string -> result (list string);
  json_loads : string -> result json;
  image_open : string -> result image;
  (* [processor(text=..., images=..., return_tensors="pt", padding=True)] *)
  processor : list json -> list image -> features;
  features_to_device : features -> features;
  features_get : features -> string -> tensor;
  (* [processor.tokenizer(text=..., ...).input_ids] *)
  tokenizer_input_ids : list json -> tensor;
  tensor_to_device : tensor -> tensor;
  (* [model(...).loss], which depends on every framework call so far *)
  model_loss : list (Event features tensor num) -> tensor -> tensor -> tensor -> tensor;
  loss_item : tensor -> num;
  num_zero : num;
  num_add : num -> num -> num;
  num_div : num -> nat -> num;
  num_of_literal : string -> num;
  (* the random numbers [torch.randperm] consumes *)
  rand : nat -> nat;
}.

(** ** Objects and the world *)

Definition loc : Type := positive.

Record JSONLDataset : Type := {
  jsonl_file_path : string;
  image_directory_path : string;
  entries : list json;
}.

Record DetectionDataset : Type := {
  dataset : loc;
}.

Inductive obj : Type :=
| ObjJSONLDataset (o : JSONLDataset)
| ObjDetectionDataset (o : DetectionDataset).

Section Program.
Context {RT : Runtime}.

Definition event : Type := Event features tensor num.
Definition data_event : Type := DataEvent image.

(** The heap of dataset objects, the log of the data pipeline, the trace
    of the framework calls, every exception raised so far, and the number
    of random draws consumed. *)
Record World : Type := {
  w_heap : gmap loc obj;
  w_data : list data_event;
  w_trace : list event;
  w_raised : list exn;
  w_rng : nat;
}.

Definition M (A : Type) : Type := World -> World * result A.

Definition ret {A} (a : A) : M A := fun w => (w, Ok a).

Definition bind {A B} (m : M A) (k : A -> M B) : M B :=
  fun w =>
    match m w with
    | (w', Ok a) => k a w'
    | (w', Raise e) => (w', Raise e)
    end.

(** [raise e]; the world keeps the list of every exception raised. *)
Definition raise {A} (e : exn) : M A :=
  fun w =>
    ({| w_heap := w_heap w; w_data := w_data w; w_trace := w_trace w;
        w_raised := w_raised w ++ [e]; w_rng := w_rng w |}, Raise e).

Definition lift {A} (r : result A) : M A :=
  match r with
  | Ok a => ret a
  | Raise e => raise e
  end.

Definition log (ev : event) : M unit :=
  fun w =>
    ({| w_heap := w_heap w; w_data := w_data w; w_trace := w_trace w ++ [ev];
        w_raised := w_raised w; w_rng := w_rng w |}, Ok tt).

Definition log_data (ev : data_event) : M unit :=
  fun w =>
    ({| w_heap := w_heap w; w_data := w_data w ++ [ev]; w_trace := w_trace w;
        w_raised := w_raised w; w_rng := w_rng w |}, Ok tt).

Definition get_trace : M (list event) := fun w => (w, Ok (w_trace w)).

Definition alloc (o : obj) : M loc :=
  fun w =>
    let l := fresh (dom (w_heap w)) in
    ({| w_heap := <[l := o]> (w_heap w); w_data := w_data w;
        w_trace := w_trace w; w_raised := w_raised w; w_rng := w_rng w |}, Ok l).

Definition deref (l : loc) : M obj :=
  fun w =>
    match w_heap w !! l with
    | Some o => ret o w
    | None => raise (AttributeError "no such object") w
    end.

(** [try: m  except <those e with handler e = Some h>: h] *)
Definition try_except {A} (m : M A) (handler : exn -> option (M A)) : M A :=
  fun w =>
    match m w with
    | (w', Ok a) => (w', Ok a)
    | (w', Raise e) =>
        match handler e with
        | Some h => h w'
        | None => (w', Raise e)
        end
    end.

(** [with ctx: body], where entering and leaving [ctx] are framework calls;
    the context is left on an exception too. *)
Definition with_ctx {A} (enter leave : event) (body : M A) : M A :=
  fun w =>
    match body (fst (log enter w)) with
    | (w', r) => (fst (log leave w'), r)
    end.

End Program.

Declare Scope py_scope.
Delimit Scope py_scope with py.
Notation "x <- m ;; k" := (bind m (fun x => k))
  (at level 100, m at next level, right associativity) : py_scope.
Notation "m ;; k" := (bind m (fun _ => k))
  (at level 100, right associativity) : py_scope.
Local Open Scope py_scope.

(** ** Loops *)

Section Loops.
Context {RT : Runtime}.

Fixpoint mapM {A B} (f : A -> M B) (l : list A) : M (list B) :=
  match l with
  | [] => ret []
  | x :: xs => y <- f x ;; ys <- mapM f xs ;; ret (y :: ys)
  end.

(** [for x in l: s = body(s, x)], the loop state [s] holding the local
    variables the loop assigns. *)
Fixpoint foldM {A St} (body : St -> A -> M St) (s : St) (l : list A) : M St :=
  match l with
  | [] => ret s
  | x :: xs => s' <- body s x ;; foldM body s' xs
  end.

(** [l[idx]] on a Python list. *)
Definition list_getitem {A} (l : list A) (idx : Z) : M A :=
  let i := if (idx <? 0)%Z then (idx + Z.of_nat (length l))%Z else idx in
  if (i <? 0)%Z then raise (IndexError "list index out of range")
  else
    match l !! Z.to_nat i with
    | Some x => ret x
    | None => raise (IndexError "list index out of range")
    end.

End Loops.

(** ** class JSONLDataset *)

Module JSONLDataset.
Section Methods.
Context {RT : Runtime}.

Definition self_ (self : loc) : M JSONLDataset :=
  o <- deref self ;;
  match o with
  | ObjJSONLDataset d => ret d
  | _ => raise (AttributeError "not a JSONLDataset")
  end.

Definition _load_entries (jsonl_file_path : string) : M (list json) :=
  file <- lift (file_lines jsonl_file_path) ;;
  foldM (fun entries line =>
           data <- lift (json_loads line) ;;
           ret (entries ++ [data]))
        [] file.

(** The new object becomes reachable only when [__init__] returns, so it
    is allocated once its three attributes are known. *)
Definition __init__ (jsonl_file_path image_directory_path : string) : M loc :=
  entries <- _load_entries jsonl_file_path ;;
  alloc (ObjJSONLDataset
           {| jsonl_file_path := jsonl_file_path;
              image_directory_path := image_directory_path;
              entries := entries |}).

Definition __len__ (self : loc) : M nat :=
  d <- self_ self ;;
  ret (length (entries d)).

Definition __getitem__ (self : loc) (idx : Z) : M (image * json) :=
  d <- self_ self ;;
  if (idx <? 0)%Z || (idx >=? Z.of_nat (length (entries d)))%Z then
    raise (IndexError "Index out of range")
  else
    entry <- list_getitem (entries d) idx ;;
    name <- lift (subscript entry "image") ;;
    match name with
    | JStr name =>
        let image_path := os_path_join (image_directory_path d) name in
        try_except
          (log_data (DImageOpen image_path) ;;
           image <- lift (image_open image_path) ;;
           ret (image, entry))
          (fun e =>
             match e with
             | FileNotFoundError _ =>
                 Some (raise (FileNotFoundError
                                ("Image file " +:+ image_path +:+ " not found.")))
             | _ => None
             end)
    | _ => raise (TypeError "expected str, bytes or os.PathLike object")
    end.

End Methods.
End JSONLDataset.

(** ** class DetectionDataset(Dataset) *)

Module DetectionDataset.
Section Methods.
Context {RT : Runtime}.

Definition self_ (self : loc) : M DetectionDataset :=
  o <- deref self ;;
  match o with
  | ObjDetectionDataset d => ret d
  | _ => raise (AttributeError "not a DetectionDataset")
  end.

Definition __init__ (jsonl_file_path image_directory_path : string) : M loc :=
  ds <- JSONLDataset.__init__ jsonl_file_path image_directory_path ;;
  alloc (ObjDetectionDataset {| dataset := ds |}).

Definition __len__ (self : loc) : M nat :=
  d <- self_ self ;;
  JSONLDataset.__len__ (dataset d).

Definition __getitem__ (self : loc) (idx : Z) : M (json * json * image) :=
  d <- self_ self ;;
  item <- JSONLDataset.__getitem__ (dataset d) idx ;;
  let '(image, data) := item in
  prefix <- lift (subscript data "prefix") ;;
  suffix <- lift (subscript data "suffix") ;;
  ret (prefix, suffix, image).

End Methods.
End DetectionDataset.

(** ** collate_fn *)

Section Collate.
Context {RT : Runtime}.

(** [questions, answers, images = zip] of the starred [batch]: the
    transposition of a list of triples, unpacked into three names; with no
    triple at all [zip] yields nothing and the unpacking fails. *)
Definition zip_star (batch : list (json * json * image))
  : M (list json * list json * list image) :=
  match batch with
  | [] => raise (ValueError "not enough values to unpack (expected 3, got 0)")
  | _ :: _ => ret (map (fun t => fst (fst t)) batch,
                   map (fun t => snd (fst t)) batch,
                   map snd batch)
  end.

Definition collate_fn (batch : list (json * json * image))
  : M (features * list json) :=
  cols <- zip_star batch ;;
  let '(questions, answers, images) := cols in
  log_data (DProcessor questions images) ;;
  let inputs := features_to_device (processor questions images) in
  ret (inputs, answers).

End Collate.

(** ** torch.utils.data.DataLoader, as the script configures it

    A map-style dataset, [num_workers = 0], the default samplers and
    [drop_last = False]: every batch is fetched in the calling thread when
    the loop asks for it.  The script runs as one process, where the
    loader [accelerator.prepare] returns yields the same batches and has
    the same length. *)

Record DataLoader : Type := {
  dl_dataset : loc;
  dl_batch_size : nat;
  dl_shuffle : bool;
}.

Definition insert_at {A} (i : nat) (x : A) (l : list A) : list A :=
  take i l ++ x :: drop i l.

(** A permutation of [l] driven by the draws [draw k], [draw (k+1)], ... *)
Fixpoint permute (draw : nat -> nat) (k : nat) (l : list nat) : list nat :=
  match l with
  | [] => []
  | x :: rest =>
      let tl := permute draw (S k) rest in
      insert_at (draw k mod S (length tl)) x tl
  end.

(** BatchSampler: indices are appended to the current batch, which is
    yielded when full; a last partial batch is yielded too. *)
Fixpoint batch_sampler (batch_size : nat) (batch : list nat) (sampler : list nat)
  : list (list nat) :=
  match sampler with
  | [] => match batch with [] => [] | _ :: _ => [batch] end
  | idx :: rest =>
      let batch := batch ++ [idx] in
      if (length batch =? batch_size)%nat
      then batch :: batch_sampler batch_size [] rest
      else batch_sampler batch_size batch rest
  end.

Section Loader.
Context {RT : Runtime}.

Definition randperm (n : nat) : M (list nat) :=
  fun w =>
    ({| w_heap := w_heap w; w_data := w_data w; w_trace := w_trace w;
        w_raised := w_raised w; w_rng := w_rng w + n |},
     Ok (permute rand (w_rng w) (seq 0 n))).

(** [DataLoader(dataset, batch_size=..., collate_fn=collate_fn,
    num_workers=NUM_WORKERS, shuffle=...)]: the random sampler of a
    shuffling loader refuses an empty dataset, and the batch sampler a
    batch size of 0. *)
Definition DataLoader_init (dataset : loc) (batch_size : nat) (shuffle : bool)
  : M DataLoader :=
  (if shuffle then
     n <- DetectionDataset.__len__ dataset ;;
     if (n =? 0)%nat
     then raise (ValueError
                   "num_samples should be a positive integer value, but got num_samples=0")
     else ret tt
   else ret tt) ;;
  if (batch_size =? 0)%nat
  then raise (ValueError
                "batch_size should be a positive integer value, but got batch_size=0")
  else ret {| dl_dataset := dataset; dl_batch_size := batch_size; dl_shuffle := shuffle |}.

Definition loader_len (loader : DataLoader) : M nat :=
  n <- DetectionDataset.__len__ (dl_dataset loader) ;;
  ret ((n + dl_batch_size loader - 1) / dl_batch_size loader).

Definition loader_sampler (loader : DataLoader) : M (list nat) :=
  n <- DetectionDataset.__len__ (dl_dataset loader) ;;
  if dl_shuffle loader then randperm n else ret (seq 0 n).

Definition loader_fetch (loader : DataLoader) (indices : list nat)
  : M (features * list json) :=
  data <- mapM (fun idx => DetectionDataset.__getitem__ (dl_dataset loader) (Z.of_nat idx))
               indices ;;
  collate_fn data.

(** [for inputs, answers in loader: s = body(s, (inputs, answers))] *)
Definition for_batches {St} (loader : DataLoader) (s : St)
    (body : St -> features * list json -> M St) : M St :=
  sampler <- loader_sampler loader ;;
  foldM (fun s indices => b <- loader_fetch loader indices ;; body s b)
        s (batch_sampler (dl_batch_size loader) [] sampler).

(** [tqdm] wraps an iterable in a progress bar and yields its items. *)
Definition tqdm {A} (iterable : A) (desc : string) : A := iterable.

End Loader.

(** ** train_model *)

Section Train.
Context {RT : Runtime}.

Definition truediv (x : num) (n : nat) : M num :=
  if (n =? 0)%nat then raise ZeroDivisionError else ret (num_div x n).

Definition tokenizer (text : list json) : M tensor :=
  let input_ids := tokenizer_input_ids text in
  log (EvTokenize text input_ids) ;;
  ret (tensor_to_device input_ids).

(** [model(input_ids=..., pixel_values=..., labels=...).loss] *)
Definition model (input_ids pixel_values labels : tensor) : M tensor :=
  history <- get_trace ;;
  let loss := model_loss history input_ids pixel_values labels in
  log (EvForward input_ids pixel_values labels loss) ;;
  ret loss.

Definition load_local (var : string) (v : option num) : M num :=
  match v with
  | Some x => ret x
  | None => raise (UnboundLocalError var)
  end.

Definition weights_output_dir (epoch : nat) : string :=
  output_dir +:+ "/epoch_" +:+ str_of_nat (epoch + 1).

(** The body of [for inputs, answers in tqdm(train_loader, ...)]; the
    loop assigns the locals [train_loss] and [avg_train_loss]. *)
Definition train_step (train_loader : DataLoader)
    (locals : num * option num) (b : features * list json)
  : M (num * option num) :=
  let '(train_loss, _) := locals in
  let '(inputs, answers) := b in
  with_ctx EvAccumulateEnter EvAccumulateExit
    (let input_ids := features_get inputs "input_ids" in
     let pixel_values := features_get inputs "pixel_values" in
     labels <- tokenizer answers ;;
     loss <- model input_ids pixel_values labels ;;
     log (EvBackward loss) ;;
     log EvOptimizerStep ;;
     log EvSchedulerStep ;;
     log EvZeroGrad ;;
     let train_loss := num_add train_loss (loss_item loss) in
     n <- loader_len train_loader ;;
     avg_train_loss <- truediv train_loss n ;;
     ret (train_loss, Some avg_train_loss)).

(** The body of [for inputs, answers in tqdm(val_loader, ...)]. *)
Definition val_step (val_loss : num) (b : features * list json) : M num :=
  let '(inputs, answers) := b in
  let input_ids := features_get inputs "input_ids" in
  let pixel_values := features_get inputs "pixel_values" in
  labels <- tokenizer answers ;;
  loss <- model input_ids pixel_values labels ;;
  ret (num_add val_loss (loss_item loss)).

(** The body of [for epoch in range(epochs)]; [avg_train_loss] is a local
    of [train_model] and outlives the iteration. *)
Definition epoch_body (train_loader val_loader : DataLoader) (epochs : nat)
    (avg_train_loss : option num) (epoch : nat) : M (option num) :=
  log EvModelTrain ;;
  let train_loss := num_zero in
  locals <- for_batches
              (tqdm train_loader
                 ("Training Epoch " +:+ str_of_nat (epoch + 1) +:+ "/" +:+ str_of_nat epochs))
              (train_loss, avg_train_loss) (train_step train_loader) ;;
  let '(train_loss, avg_train_loss) := locals in
  v <- load_local "avg_train_loss" avg_train_loss ;;
  log (EvPrint "Average Training Loss: " v) ;;
  log EvModelEval ;;
  let val_loss := num_zero in
  with_ctx EvNoGradEnter EvNoGradExit
    (val_loss <- for_batches
                   (tqdm val_loader
                      ("Validation Epoch " +:+ str_of_nat (epoch + 1) +:+ "/" +:+ str_of_nat epochs))
                   val_loss val_step ;;
     n <- loader_len val_loader ;;
     avg_val_loss <- truediv val_loss n ;;
     log (EvPrint "Average Validation Loss: " avg_val_loss)) ;;
  let weights_output_dir := weights_output_dir epoch in
  log (EvMakedirs weights_output_dir true) ;;
  log (EvSaveModel weights_output_dir) ;;
  ret avg_train_loss.

Definition train_model (train_loader val_loader : DataLoader)
    (epochs : nat) (lr : num) : M unit :=
  log (EvAdamW lr) ;;
  n <- loader_len train_loader ;;
  let num_training_steps := epochs * n in
  log (EvGetScheduler "linear" 12 num_training_steps) ;;
  log EvPrepare ;;
  foldM (epoch_body train_loader val_loader epochs) None (seq 0 epochs) ;;
  ret tt.

Definition learning_rate : num := num_of_literal "5e-6".

(** The module-level statements of the script, in order. *)
Definition main : M unit :=
  log (EvAccelerator gradient_accumulation_steps) ;;
  log (EvFromPretrained "AutoModelForCausalLM" CHECKPOINT) ;;
  log (EvFromPretrained "AutoProcessor" CHECKPOINT) ;;
  train_dataset <- DetectionDataset.__init__ train_labels img_dir ;;
  test_dataset <- DetectionDataset.__init__ test_labels img_dir ;;
  train_loader <- DataLoader_init train_dataset BATCH_SIZE true ;;
  test_loader <- DataLoader_init test_dataset BATCH_SIZE false ;;
  train_model train_loader test_loader epochs learning_rate.

Definition empty_world : World :=
  {| w_heap := ∅; w_data := []; w_trace := []; w_raised := []; w_rng := 0 |}.

End Train.

(** ** What a run is observed by *)

(** A framework call without its tensors and numbers. *)
Inductive Call : Type :=
| CAccelerator (gradient_accumulation_steps : nat)
| CFromPretrained (class checkpoint : string)
| CAdamW
| CGetScheduler (name : string) (num_warmup_steps num_training_steps : nat)
| CPrepare
| CModelTrain
| CModelEval
| CAccumulateEnter
| CAccumulateExit
| CNoGradEnter
| CNoGradExit
| CTokenize
| CForward
| CBackward
| COptimizerStep
| CSchedulerStep
| CZeroGrad
| CPrint (text : string)
| CMakedirs (path : string) (exist_ok : bool)
| CSaveModel (path : string).

Definition is_scheduler_step (c : Call) : bool :=
  match c with CSchedulerStep => true | _ => false end.

Definition saved_dir (c : Call) : option string :=
  match c with CSaveModel p => Some p | _ => None end.

Definition made_dir (c : Call) : option string :=
  match c with CMakedirs p _ => Some p | _ => None end.

Definition scheduler_config (c : Call) : option (string * nat * nat) :=
  match c with
  | CGetScheduler name warmup total => Some (name, warmup, total)
  | _ => None
  end.

Definition count_if {A} (p : A -> bool) (l : list A) : nat :=
  length (List.filter p l).

(** The calls of one training batch, of one validation batch, of one
    epoch over [nt] training and [nv] validation batches, and of a run. *)
Definition train_step_calls : list Call :=
  [CAccumulateEnter; CTokenize; CForward; CBackward; COptimizerStep;
   CSchedulerStep; CZeroGrad; CAccumulateExit].

Definition val_step_calls : list Call := [CTokenize; CForward].

Definition train_phase_calls (nt : nat) : list Call :=
  [CModelTrain] ++ concat (replicate nt train_step_calls)
  ++ [CPrint "Average Training Loss: "].

Definition val_phase_calls (nv : nat) : list Call :=
  [CModelEval; CNoGradEnter] ++ concat (replicate nv val_step_calls)
  ++ [CPrint "Average Validation Loss: "; CNoGradExit].

Definition checkpoint_dir (e : nat) : string :=
  output_dir +:+ "/epoch_" +:+ str_of_nat e.

Definition checkpoint_calls (e : nat) : list Call :=
  [CMakedirs (checkpoint_dir e) true; CSaveModel (checkpoint_dir e)].

(** Epoch [e], counted from 1. *)
Definition epoch_calls (nt nv e : nat) : list Call :=
  train_phase_calls nt ++ val_phase_calls nv ++ checkpoint_calls e.

Definition setup_calls (total : nat) : list Call :=
  [CAdamW; CGetScheduler "linear" 12 total; CPrepare].

Definition run_calls (epochs total nt nv : nat) : list Call :=
  setup_calls total ++ concat (map (epoch_calls nt nv) (seq 1 epochs)).

(** Reading the heap: the [JSONLDataset] behind a [DetectionDataset]
    reference, and its entries. *)
Definition heap_dataset (h : gmap loc obj) (self : loc) : option JSONLDataset :=
  match h !! self with
  | Some (ObjDetectionDataset d) =>
      match h !! dataset d with
      | Some (ObjJSONLDataset j) => Some j
      | _ => None
      end
  | _ => None
  end.

Definition heap_entries (h : gmap loc obj) (self : loc) : option (list json) :=
  match heap_dataset h self with
  | Some j => Some (entries j)
  | None => None
  end.

Definition dataset_size (h : gmap loc obj) (self : loc) : nat :=
  match heap_entries h self with
  | Some es => length es
  | None => 0
  end.

(** The number of batches a loader yields, and the value of [len(loader)]. *)
Definition num_batches (batch_size n : nat) : nat :=
  length (batch_sampler batch_size [] (seq 0 n)).

Definition batches_in (h : gmap loc obj) (loader : DataLoader) : nat :=
  num_batches (dl_batch_size loader) (dataset_size h (dl_dataset loader)).

Definition len_of (h : gmap loc obj) (loader : DataLoader) : nat :=
  (dataset_size h (dl_dataset loader) + dl_batch_size loader - 1) / dl_batch_size loader.

(** The keys of an entry of the data model. *)
Definition entry_fields (entry : json) : option (string * json * json) :=
  match subscript entry "image", subscript entry "prefix", subscript entry "suffix" with
  | Ok (JStr name), Ok prefix, Ok suffix => Some (name, prefix, suffix)
  | _, _, _ => None
  end.

(** Where a call is made: outside the two contexts of the training loop,
    inside [accelerator.accumulate(model)] or inside [torch.no_grad()].
    [where_next c call] is where the run is after [call], made at [c];
    there is none when the call is not made at its place: the contexts
    are entered from outside and left from inside, the backward pass and
    the steps of the optimizer and of the scheduler belong inside
    [accumulate], tokenizing and the forward pass inside either context,
    a print outside or inside [no_grad], and every other call outside. *)
Inductive Where : Type := Outside | InAccumulate | InNoGrad.

Definition where_next (c : Where) (call : Call) : option Where :=
  match call with
  | CAccumulateEnter => match c with Outside => Some InAccumulate | _ => None end
  | CAccumulateExit => match c with InAccumulate => Some Outside | _ => None end
  | CNoGradEnter => match c with Outside => Some InNoGrad | _ => None end
  | CNoGradExit => match c with InNoGrad => Some Outside | _ => None end
  | CBackward | COptimizerStep | CSchedulerStep | CZeroGrad =>
      match c with InAccumulate => Some c | _ => None end
  | CTokenize | CForward => match c with Outside => None | _ => Some c end
  | CPrint _ => match c with InAccumulate => None | _ => Some c end
  | _ => match c with Outside => Some c | _ => None end
  end.

Fixpoint where_after (c : Where) (calls : list Call) : option Where :=
  match calls with
  | [] => Some c
  | call :: rest =>
      match where_next c call with
      | Some c' => where_after c' rest
      | None => None
      end
  end.

Definition is_checkpoint_call (c : Call) : bool :=
  match c with CMakedirs _ _ | CSaveModel _ => true | _ => false end.

Section Observe.
Context {RT : Runtime}.

Definition call_of (ev : event) : Call :=
  match ev with
  | EvAccelerator n => CAccelerator n
  | EvFromPretrained class checkpoint => CFromPretrained class checkpoint
  | EvAdamW _ => CAdamW
  | EvGetScheduler name warmup total => CGetScheduler name warmup total
  | EvPrepare => CPrepare
  | EvModelTrain => CModelTrain
  | EvModelEval => CModelEval
  | EvAccumulateEnter => CAccumulateEnter
  | EvAccumulateExit => CAccumulateExit
  | EvNoGradEnter => CNoGradEnter
  | EvNoGradExit => CNoGradExit
  | EvTokenize _ _ => CTokenize
  | EvForward _ _ _ _ => CForward
  | EvBackward _ => CBackward
  | EvOptimizerStep => COptimizerStep
  | EvSchedulerStep => CSchedulerStep
  | EvZeroGrad => CZeroGrad
  | EvPrint text _ => CPrint text
  | EvMakedirs path exist_ok => CMakedirs path exist_ok
  | EvSaveModel path => CSaveModel path
  end.

(** The framework calls made between the worlds [w] and [w']. *)
Definition since (w w' : World) : list event :=
  drop (length (w_trace w)) (w_trace w').

Definition calls_since (w w' : World) : list Call :=
  map call_of (since w w').

(** The data events between [w] and [w']. *)
Definition data_since (w w' : World) : list data_event :=
  drop (length (w_data w)) (w_data w').

(** The losses the model returned, and their running sum as the loop
    computes it. *)
Definition forward_loss (ev : event) : option num :=
  match ev with
  | EvForward _ _ _ loss => Some (loss_item loss)
  | _ => None
  end.

Definition forward_losses (evs : list event) : list num :=
  omap forward_loss evs.

Definition sum_losses (losses : list num) : num :=
  fold_left num_add losses num_zero.

Definition is_print (ev : event) : bool :=
  match ev with EvPrint _ _ => true | _ => false end.

Definition printed (ev : event) : option (string * num) :=
  match ev with EvPrint text value => Some (text, value) | _ => None end.

(** The events of one training batch and of one validation batch, begun
    after the framework calls [history]. *)
Definition train_step_events (history : list event) (b : features * list json)
  : list event :=
  let '(inputs, answers) := b in
  let input_ids := features_get inputs "input_ids" in
  let pixel_values := features_get inputs "pixel_values" in
  let ids := tokenizer_input_ids answers in
  let labels := tensor_to_device ids in
  let loss := model_loss (history ++ [EvAccumulateEnter; EvTokenize answers ids])
                input_ids pixel_values labels in
  [EvAccumulateEnter; EvTokenize answers ids;
   EvForward input_ids pixel_values labels loss; EvBackward loss;
   EvOptimizerStep; EvSchedulerStep; EvZeroGrad; EvAccumulateExit].

Definition val_step_events (history : list event) (b : features * list json)
  : list event :=
  let '(inputs, answers) := b in
  let input_ids := features_get inputs "input_ids" in
  let pixel_values := features_get inputs "pixel_values" in
  let ids := tokenizer_input_ids answers in
  let labels := tensor_to_device ids in
  let loss := model_loss (history ++ [EvTokenize answers ids])
                input_ids pixel_values labels in
  [EvTokenize answers ids; EvForward input_ids pixel_values labels loss].

(** The events of epoch [e] (counted from 1): the training batches [tr],
    the printed training average, the validation batches [va], the printed
    validation average and the checkpoint. *)
Definition epoch_events (tr va : list event) (avg_train avg_val : num) (e : nat)
  : list event :=
  [EvModelTrain] ++ tr
  ++ [EvPrint "Average Training Loss: " avg_train; EvModelEval; EvNoGradEnter]
  ++ va
  ++ [EvPrint "Average Validation Loss: " avg_val; EvNoGradExit;
      EvMakedirs (checkpoint_dir e) true; EvSaveModel (checkpoint_dir e)].

Definition no_print (evs : list event) : Prop :=
  Forall (fun ev => is_print ev = false) evs.

(** An entry has the keys of the data model and its image can be opened
    from [dir]. *)
Definition entry_loads (dir : string) (entry : json) : bool :=
  match entry_fields entry with
  | Some (name, _, _) =>
      match image_open (os_path_join dir name) with
      | Ok _ => true
      | Raise _ => false
      end
  | None => false
  end.

(** A loader with a positive batch size over a dataset that is not empty
    and all of whose entries load. *)
Definition loader_ready (h : gmap loc obj) (loader : DataLoader) : bool :=
  match heap_dataset h (dl_dataset loader) with
  | Some j =>
      (0 <? dl_batch_size loader)%nat
      && (0 <? length (entries j))%nat
      && forallb (entry_loads (image_directory_path j)) (entries j)
  | None => false
  end.

(** [json.loads(line)] returns [entry]. *)
Definition parses (line : string) (entry : json) : Prop := json_loads line = Ok entry.

(** [sum / n] as the loop computes it. *)
Definition average (losses : list num) (n : nat) : num :=
  num_div (sum_losses losses) n.

(** The events of epoch [e] from the events of its training batches and
    of its validation batches, each average printed being the average of
    the losses of those batches over [len_t] and [len_v]. *)
Definition epoch_trace (len_t len_v e : nat) (p : list event * list event)
  : list event :=
  epoch_events (fst p) (snd p)
    (average (forward_losses (fst p)) len_t)
    (average (forward_losses (snd p)) len_v) e.

(** The batches of an epoch: [nt] training steps, [nv] validation steps. *)
Definition epoch_batches_ok (nt nv : nat) (p : list event * list event) : Prop :=
  map call_of (fst p) = concat (replicate nt train_step_calls) /\
  map call_of (snd p) = concat (replicate nv val_step_calls) /\
  length (forward_losses (fst p)) = nt /\
  length (forward_losses (snd p)) = nv /\
  no_print (fst p) /\ no_print (snd p).

(** Every run of [m] takes a world to one related to it by [R]. *)
Definition keeps (R : relation World) {A} (m : M A) : Prop :=
  forall w, R w (fst (m w)).

(** The heap is left as it is. *)
Definition same_heap (w w' : World) : Prop := w_heap w' = w_heap w.

(** The heap and the framework trace are left as they are. *)
Definition same_calls (w w' : World) : Prop :=
  w_heap w' = w_heap w /\ w_trace w' = w_trace w.

(** When a computation returns, no exception was raised on the way; when
    one was raised, the computation ends with the last one raised. *)
Definition propagates {A} (m : M A) : Prop :=
  forall w,
    match m w with
    | (w', Ok _) => w_raised w' = w_raised w
    | (w', Raise e) => exists l, w_raised w' = w_raised w ++ l ++ [e]
    end.

(** A handler that always ends with an exception of its own. *)
Definition reraises {A} (h : M A) : Prop :=
  forall w,
    match h w with
    | (_, Ok _) => False
    | (w', Raise e) => exists l, w_raised w' = w_raised w ++ l ++ [e]
    end.

(** What [_load_entries] makes of the lines of a file: the parsed
    objects in file order, or the exception of the first line that does
    not parse; and of a path: the same for the lines of the file, or the
    exception of [open]. *)
Fixpoint parse_lines (lines : list string) : result (list json) :=
  match lines with
  | [] => Ok []
  | line :: rest =>
      match json_loads line with
      | Raise e => Raise e
      | Ok data =>
          match parse_lines rest with
          | Ok es => Ok (data :: es)
          | Raise e => Raise e
          end
      end
  end.

Definition read_entries (path : string) : result (list json) :=
  match file_lines path with
  | Ok lines => parse_lines lines
  | Raise e => Raise e
  end.

(** The first exception met when the two annotation files of the script
    are read, the training file first. *)
Definition first_failure : option exn :=
  match read_entries train_labels, read_entries test_labels with
  | Raise e, _ => Some e
  | Ok _, Raise e => Some e
  | Ok _, Ok _ => None
  end.

(** The trace of [w'] is the trace of [w] followed by events that
    satisfy [P]. *)
Definition appends (P : list event -> Prop) (w w' : World) : Prop :=
  exists evs, w_trace w' = w_trace w ++ evs /\ P evs.


(** From [c], the calls are all made at their place and end at [c]. *)
Definition stays (c : Where) (evs : list event) : Prop :=
  where_after c (map call_of evs) = Some c.


(** The path of the image of an entry and the sample that
    [DetectionDataset.__getitem__] makes of the entry, when the entry has
    the three keys of the data model and its image opens from [dir]. *)
Definition sample_of (dir : string) (entry : json)
  : option (string * (json * json * image)) :=
  match entry_fields entry with
  | Some (name, prefix, suffix) =>
      match image_open (os_path_join dir name) with
      | Ok img => Some (os_path_join dir name, (prefix, suffix, img))
      | Raise _ => None
      end
  | None => None
  end.

(** The sample of the entry at [idx]. *)
Definition sample_at (j : JSONLDataset) (idx : nat)
  : option (string * (json * json * image)) :=
  match entries j !! idx with
  | Some entry => sample_of (image_directory_path j) entry
  | None => None
  end.

End Observe.

(** ** A small concrete runtime

    Five training lines, two test lines, a file with a malformed line, a
    file naming an image that does not exist and an empty file; images are
    stood for by their paths, tensors and numbers by integers. *)

Definition demo_entry (line : string) : json :=
  JDict [("image", JStr (line +:+ ".jpg")); ("prefix", JStr "<OD>");
         ("suffix", JStr (line +:+ "<loc_1>"))].

Definition demo_json_loads (line : string) : result json :=
  if String.eqb line "{oops" then Raise (JSONDecodeError line)
  else Ok (demo_entry line).

Definition demo_file_lines (path : string) : result (list string) :=
  if String.eqb path "./annotations/train.jsonl" then Ok ["a"; "b"; "c"; "d"; "e"]
  else if String.eqb path "./annotations/test.jsonl" then Ok ["f"; "g"]
  else if String.eqb path "./annotations/bad.jsonl" then Ok ["a"; "{oops"; "c"]
  else if String.eqb path "./annotations/lost.jsonl" then Ok ["a"; "lost"]
  else if String.eqb path "./annotations/empty.jsonl" then Ok []
  else Raise (FileNotFoundError path).

Definition demo_image_open (path : string) : result string :=
  if String.eqb path "./images/lost.jpg" then Raise (FileNotFoundError path)
  else Ok path.

Definition demo_runtime : Runtime := {|
  image := string;
  features := list json * list string;
  tensor := Z;
  num := Z;
  file_lines := demo_file_lines;
  json_loads := demo_json_loads;
  image_open := demo_image_open;
  processor := fun text images => (text, images);
  features_to_device := fun f => f;
  features_get := fun f _ => Z.of_nat (length (fst f));
  tokenizer_input_ids := fun text => Z.of_nat (length text);
  tensor_to_device := fun t => t;
  model_loss := fun history input_ids _ labels =>
                  (Z.of_nat (length history) + input_ids + labels)%Z;
  loss_item := fun t => t;
  num_zero := 0%Z;
  num_add := Z.add;
  num_div := fun x n => (x / Z.of_nat n)%Z;
  num_of_literal := fun _ => 5%Z;
  rand := fun k => k * 7 + 3;
|}.

(** The world after the two datasets of a script run on [train] and
    [test] files have been built. *)
Definition demo_loaders (train test : string) (batch_size : nat)
  : World * result (DataLoader * DataLoader) :=
  (train_dataset <- DetectionDataset.__init__ (RT := demo_runtime) train img_dir ;;
   test_dataset <- DetectionDataset.__init__ test img_dir ;;
   ret ({| dl_dataset := train_dataset; dl_batch_size := batch_size; dl_shuffle := true |},
        {| dl_dataset := test_dataset; dl_batch_size := batch_size; dl_shuffle := false |}))
    empty_world.

Definition demo_world (train test : string) : World :=
  fst (demo_loaders train test BATCH_SIZE).

Definition demo_train_loader : DataLoader :=
  {| dl_dataset := 2%positive; dl_batch_size := BATCH_SIZE; dl_shuffle := true |}.

Definition demo_test_loader : DataLoader :=
  {| dl_dataset := 4%positive; dl_batch_size := BATCH_SIZE; dl_shuffle := false |}.


Definition demo_w : World (RT := demo_runtime) := demo_world train_labels test_labels.

Definition demo_lr : num (Runtime := demo_runtime) := 5%Z.

(** The same with a training file whose second entry names a missing
    image, and with an empty training file. *)
Definition demo_w_lost : World (RT := demo_runtime) :=
  demo_world "./annotations/lost.jsonl" test_labels.


Definition demo_jsonl (path : string) (lines : list string) : JSONLDataset :=
  {| jsonl_file_path := path; image_directory_path := img_dir;
     entries := map demo_entry lines |}.

Definition demo_batch : list (json * json * image (Runtime := demo_runtime)) :=
  [(JStr "<OD>", JStr "cat<loc_1>", "./images/a.jpg");
   (JStr "<OD>", JStr "dog<loc_2>", "./images/b.jpg")].

(** The same runtime where the test annotations cannot be opened. *)
Definition demo_files_no_test (path : string) : result (list string) :=
  if String.eqb path "./annotations/train.jsonl" then Ok ["a"; "b"; "c"; "d"; "e"]
  else Raise (FileNotFoundError path).

Definition demo_runtime_no_test : Runtime := {|
  image := string;
  features := list json * list string;
  tensor := Z;
  num := Z;
  file_lines := demo_files_no_test;
  json_loads := demo_json_loads;
  image_open := demo_image_open;
  processor := fun text images => (text, images);
  features_to_device := fun f => f;
  features_get := fun f _ => Z.of_nat (length (fst f));
  tokenizer_input_ids := fun text => Z.of_nat (length text);
  tensor_to_device := fun t => t;
  model_loss := fun history input_ids _ labels =>
                  (Z.of_nat (length history) + input_ids + labels)%Z;
  loss_item := fun t => t;
  num_zero := 0%Z;
  num_add := Z.add;
  num_div := fun x n => (x / Z.of_nat n)%Z;
  num_of_literal := fun _ => 5%Z;
  rand := fun k => k * 7 + 3;
|}.

(** A dataset whose entries lack a key (the image, the prefix, the
    suffix) or are no dict, behind a [DetectionDataset]. *)
Definition demo_partial : JSONLDataset :=
  {| jsonl_file_path := "./annotations/partial.jsonl";
     image_directory_path := img_dir;
     entries := [JDict [("prefix", JStr "<OD>"); ("suffix", JStr "cat<loc_1>")];
                 JDict [("image", JStr "a.jpg"); ("suffix", JStr "cat<loc_1>")];
                 JDict [("image", JStr "b.jpg"); ("prefix", JStr "<OD>")];
                 JList [JStr "c.jpg"]] |}.

Definition demo_w_partial : World (RT := demo_runtime) :=
  {| w_heap := <[2%positive := ObjDetectionDataset {| dataset := 1%positive |}]>
                 (<[1%positive := ObjJSONLDataset demo_partial]> ∅);
     w_data := []; w_trace := []; w_raised := []; w_rng := 0 |}.

(** * The embedding at work *)

Example os_path_join_relative : os_path_join "./images" "a.jpg" = "./images/a.jpg".
Proof. reflexivity. Qed.

Example os_path_join_trailing_slash : os_path_join "./images/" "a.jpg" = "./images/a.jpg".
Proof. reflexivity. Qed.

Example os_path_join_absolute : os_path_join "./images" "/data/a.jpg" = "/data/a.jpg".
Proof. reflexivity. Qed.

Example str_of_nat_10 : str_of_nat 10 = "10".
Proof. reflexivity. Qed.

Example subscript_missing_key : subscript (JDict [("image", JStr "a.jpg")]) "prefix"
                                = Raise (KeyError "prefix").
Proof. reflexivity. Qed.

Example batch_sampler_5 : batch_sampler 4 [] (seq 0 5) = [[0; 1; 2; 3]; [4]].
Proof. reflexivity. Qed.

Example batch_sampler_8 : batch_sampler 4 [] (seq 0 8) = [[0; 1; 2; 3]; [4; 5; 6; 7]].
Proof. reflexivity. Qed.

Example permute_5 : permute (fun k => k * 7 + 3) 0 (seq 0 5) = [3; 4; 1; 0; 2].
Proof. reflexivity. Qed.

(** The script on the concrete runtime: it returns, having saved eight
    checkpoints. *)
Example DataLoader_init_empty_shuffle :
  snd (bind (DetectionDataset.__init__ (RT := demo_runtime)
               "./annotations/empty.jsonl" img_dir)
            (fun dataset => DataLoader_init dataset BATCH_SIZE true) empty_world)
  = Raise (ValueError
             "num_samples should be a positive integer value, but got num_samples=0").
Proof. reflexivity. Qed.

Example main_demo :
  snd (main (RT := demo_runtime) empty_world) = Ok tt /\
  omap saved_dir (calls_since empty_world (fst (main (RT := demo_runtime) empty_world)))
  = map checkpoint_dir (seq 1 epochs).
Proof. vm_compute. split; reflexivity. Qed.

(** Two epochs on the concrete runtime: the losses of the six batches (two
    training batches and one validation batch per epoch) and the four
    averages printed. *)
Example train_model_demo_losses :
  let evs := since demo_w
               (fst (train_model (RT := demo_runtime) demo_train_loader demo_test_loader
                       2 demo_lr demo_w)) in
  forward_losses evs = [14; 16; 28; 40; 42; 54]%Z /\
  omap printed evs
  = [("Average Training Loss: ", 15%Z); ("Average Validation Loss: ", 28%Z);
     ("Average Training Loss: ", 41%Z); ("Average Validation Loss: ", 54%Z)].
Proof. vm_compute. split; reflexivity. Qed.

(** A missing image ends the training run with the [FileNotFoundError] of
    [__getitem__], raised after the one of [Image.open]. *)
Example train_model_demo_lost :
  let r := train_model (RT := demo_runtime) demo_train_loader demo_test_loader
             2 demo_lr demo_w_lost in
  snd r = Raise (FileNotFoundError "Image file ./images/lost.jpg not found.") /\
  w_raised (fst r)
  = [FileNotFoundError "./images/lost.jpg";
     FileNotFoundError "Image file ./images/lost.jpg not found."].
Proof. vm_compute. split; reflexivity. Qed.

(** * Reasoning about runs *)

Section Runs.
Context {RT : Runtime}.

Lemma bind_ok_inv {A B} (m : M A) (k : A -> M B) w w' b :
  bind m k w = (w', Ok b) ->
  exists w1 a, m w = (w1, Ok a) /\ k a w1 = (w', Ok b).
Proof.
  unfold bind. destruct (m w) as [w1 [a|e]]; [eauto | discriminate].
Qed.

Lemma run_ok_eq {A} (m : M A) w a : snd (m w) = Ok a -> m w = (fst (m w), Ok a).
Proof. destruct (m w) as [w' r]. simpl. intros ->. reflexivity. Qed.

Lemma bind_run {A B} (m : M A) (k : A -> M B) w w1 a :
  m w = (w1, Ok a) -> bind m k w = k a w1.
Proof. unfold bind. intros ->. reflexivity. Qed.

Lemma bind_run_raise {A B} (m : M A) (k : A -> M B) w w1 e :
  m w = (w1, Raise e) -> bind m k w = (w1, Raise e).
Proof. unfold bind. intros ->. reflexivity. Qed.

Lemma lift_ok_inv {A} (r : result A) w w' a :
  lift r w = (w', Ok a) -> r = Ok a /\ w' = w.
Proof.
  destruct r as [x|e]; simpl; unfold ret, raise; intros H; inversion H; auto.
Qed.

(** *** Relations every step of a computation keeps *)

Section Keeps.
Variable R : relation World.
Context `{!PreOrder R}.

Lemma keeps_ret {A} (a : A) : keeps R (ret a).
Proof. intros w. simpl. reflexivity. Qed.

Lemma keeps_bind {A B} (m : M A) (k : A -> M B) :
  keeps R m -> (forall a, keeps R (k a)) -> keeps R (bind m k).
Proof.
  intros Hm Hk w. unfold bind. specialize (Hm w).
  destruct (m w) as [w1 [a|e]]; simpl in *; [| exact Hm].
  etransitivity; [exact Hm | apply Hk].
Qed.

Lemma keeps_lift {A} (r : result A) :
  (forall e, keeps R (raise (A := A) e)) -> keeps R (lift r).
Proof. intros Hr. destruct r; simpl; [apply keeps_ret | apply Hr]. Qed.

Lemma keeps_foldM {A St} (body : St -> A -> M St) l :
  (forall s x, keeps R (body s x)) -> forall s, keeps R (foldM body s l).
Proof.
  intros Hb. induction l as [|x xs IH]; intros s; simpl.
  - apply keeps_ret.
  - apply keeps_bind; [apply Hb | intros s'; apply IH].
Qed.

Lemma keeps_mapM {A B} (f : A -> M B) l :
  (forall x, keeps R (f x)) -> keeps R (mapM f l).
Proof.
  intros Hf. induction l as [|x xs IH]; simpl.
  - apply keeps_ret.
  - apply keeps_bind; [apply Hf | intros y].
    apply keeps_bind; [apply IH | intros ys; apply keeps_ret].
Qed.

Lemma keeps_try_except {A} (m : M A) handler :
  keeps R m -> (forall e h, handler e = Some h -> keeps R h) ->
  keeps R (try_except m handler).
Proof.
  intros Hm Hh w. unfold try_except. specialize (Hm w).
  destruct (m w) as [w1 [a|e]]; simpl in *; [exact Hm |].
  destruct (handler e) as [h|] eqn:E; simpl; [| exact Hm].
  etransitivity; [exact Hm | apply (Hh _ _ E)].
Qed.

Lemma keeps_with_ctx {A} enter leave (body : M A) :
  keeps R (log enter) -> keeps R (log leave) -> keeps R body ->
  keeps R (with_ctx enter leave body).
Proof.
  intros He Hl Hb w. unfold with_ctx.
  specialize (Hb (fst (log enter w))).
  destruct (body (fst (log enter w))) as [w1 r]; simpl in *.
  etransitivity; [apply He |]. etransitivity; [exact Hb | apply Hl].
Qed.

End Keeps.

#[local] Instance same_heap_preorder : PreOrder same_heap.
Proof.
  split; [intros w; reflexivity |].
  intros a b c H1 H2. unfold same_heap in *. congruence.
Qed.

#[local] Instance same_calls_preorder : PreOrder same_calls.
Proof.
  split; [intros w; split; reflexivity |].
  intros a b c [H1 H1'] [H2 H2']. unfold same_calls. split; congruence.
Qed.

Lemma keeps_weaken (R R' : relation World) {A} (m : M A) :
  (forall w w', R w w' -> R' w w') -> keeps R m -> keeps R' m.
Proof. intros HR Hm w. apply HR, Hm. Qed.

Lemma same_calls_heap w w' : same_calls w w' -> same_heap w w'.
Proof. intros [H _]. exact H. Qed.

Lemma same_calls_raise {A} e : keeps same_calls (raise (A := A) e).
Proof. intros w. split; reflexivity. Qed.

Lemma same_calls_log_data ev : keeps same_calls (log_data ev).
Proof. intros w. split; reflexivity. Qed.

Lemma same_calls_get_trace : keeps same_calls get_trace.
Proof. intros w. split; reflexivity. Qed.

Lemma same_calls_deref l : keeps same_calls (deref l).
Proof.
  intros w. unfold deref. destruct (w_heap w !! l); split; reflexivity.
Qed.

Lemma same_calls_randperm n : keeps same_calls (randperm n).
Proof. intros w. split; reflexivity. Qed.

Lemma same_heap_raise {A} e : keeps same_heap (raise (A := A) e).
Proof. intros w. reflexivity. Qed.

Lemma same_heap_log ev : keeps same_heap (log ev).
Proof. intros w. reflexivity. Qed.

Lemma same_heap_get_trace : keeps same_heap get_trace.
Proof. intros w. reflexivity. Qed.

(** One step of a proof that a computation keeps a relation: peel the
    outermost construct of the computation. *)
Ltac keeps_step :=
  match goal with
  | |- keeps _ (ret _) => apply keeps_ret; typeclasses eauto
  | |- keeps _ (bind _ _) => apply keeps_bind; [typeclasses eauto | | intros ?]
  | |- keeps _ (lift _) => apply keeps_lift; [typeclasses eauto | intros ?]
  | |- keeps _ (foldM _ _ _) => apply keeps_foldM; [typeclasses eauto | intros ? ?]
  | |- keeps _ (mapM _ _) => apply keeps_mapM; [typeclasses eauto | intros ?]
  | |- keeps _ (try_except _ _) =>
      apply keeps_try_except; [typeclasses eauto | | intros ? ? ?]
  | |- keeps _ (with_ctx _ _ _) => apply keeps_with_ctx; [typeclasses eauto | | | ]
  | |- keeps same_calls (raise _) => apply same_calls_raise
  | |- keeps same_calls (log_data _) => apply same_calls_log_data
  | |- keeps same_calls (deref _) => apply same_calls_deref
  | |- keeps same_calls (randperm _) => apply same_calls_randperm
  | |- keeps same_calls get_trace => apply same_calls_get_trace
  | |- keeps same_heap (raise _) => apply same_heap_raise
  | |- keeps same_heap (log _) => apply same_heap_log
  | |- keeps same_heap get_trace => apply same_heap_get_trace
  | |- keeps _ (match ?x with _ => _ end) => destruct x
  | |- keeps _ (if ?b then _ else _) => destruct b
  end.

Lemma JSONLDataset_self_keeps self : keeps same_calls (JSONLDataset.self_ self).
Proof. unfold JSONLDataset.self_. repeat keeps_step. Qed.

Lemma JSONLDataset_len_keeps self : keeps same_calls (JSONLDataset.__len__ self).
Proof.
  unfold JSONLDataset.__len__.
  keeps_step; [apply JSONLDataset_self_keeps | keeps_step].
Qed.

Lemma list_getitem_keeps {A} (l : list A) idx : keeps same_calls (list_getitem l idx).
Proof. unfold list_getitem. repeat keeps_step. Qed.

Lemma JSONLDataset_getitem_keeps self idx :
  keeps same_calls (JSONLDataset.__getitem__ self idx).
Proof.
  unfold JSONLDataset.__getitem__.
  keeps_step; [apply JSONLDataset_self_keeps |].
  keeps_step; [keeps_step |].
  keeps_step; [apply list_getitem_keeps |].
  keeps_step; [repeat keeps_step |].
  keeps_step; try solve [repeat keeps_step].
  keeps_step.
  - repeat keeps_step.
  - match goal with H : _ = Some _ |- _ => revert H end.
    destruct e; intros H; inversion H; subst. apply same_calls_raise.
Qed.

Lemma DetectionDataset_self_keeps self : keeps same_calls (DetectionDataset.self_ self).
Proof. unfold DetectionDataset.self_. repeat keeps_step. Qed.

Lemma DetectionDataset_len_keeps self : keeps same_calls (DetectionDataset.__len__ self).
Proof.
  unfold DetectionDataset.__len__.
  keeps_step; [apply DetectionDataset_self_keeps | apply JSONLDataset_len_keeps].
Qed.

Lemma DetectionDataset_getitem_keeps self idx :
  keeps same_calls (DetectionDataset.__getitem__ self idx).
Proof.
  unfold DetectionDataset.__getitem__.
  keeps_step; [apply DetectionDataset_self_keeps |].
  keeps_step; [apply JSONLDataset_getitem_keeps |].
  repeat keeps_step.
Qed.

Lemma collate_fn_keeps batch : keeps same_calls (collate_fn batch).
Proof.
  unfold collate_fn, zip_star.
  keeps_step; [repeat keeps_step |]. repeat keeps_step.
Qed.

Lemma loader_len_keeps loader : keeps same_calls (loader_len loader).
Proof.
  unfold loader_len.
  keeps_step; [apply DetectionDataset_len_keeps | keeps_step].
Qed.

Lemma loader_sampler_keeps loader : keeps same_calls (loader_sampler loader).
Proof.
  unfold loader_sampler.
  keeps_step; [apply DetectionDataset_len_keeps | repeat keeps_step].
Qed.

Lemma loader_fetch_keeps loader indices : keeps same_calls (loader_fetch loader indices).
Proof.
  unfold loader_fetch.
  keeps_step; [| apply collate_fn_keeps].
  keeps_step. apply DetectionDataset_getitem_keeps.
Qed.

(** *** Samplers and batches *)

Lemma insert_at_length {A} i (x : A) l : length (insert_at i x l) = S (length l).
Proof.
  unfold insert_at. rewrite length_app. simpl.
  rewrite <- Nat.add_succ_comm. simpl. f_equal.
  rewrite <- length_app, take_drop. reflexivity.
Qed.

Lemma permute_length draw k l : length (permute draw k l) = length l.
Proof.
  revert k. induction l as [|x rest IH]; intros k; simpl; [reflexivity |].
  rewrite insert_at_length, IH. reflexivity.
Qed.

(** The number of batches depends on the number of indices only. *)
Lemma batch_sampler_length_indep bs (l l' : list nat) :
  length l = length l' ->
  forall cur cur' : list nat, length cur = length cur' ->
  length (batch_sampler bs cur l) = length (batch_sampler bs cur' l').
Proof.
  revert l'. induction l as [|x rest IH]; intros [|x' rest'] Hl cur cur' Hc;
    simpl in Hl; try discriminate.
  - simpl. destruct cur, cur'; simpl in *; congruence.
  - simpl. rewrite !length_app. simpl. rewrite <- Hc.
    destruct (length cur + 1 =? bs)%nat.
    + simpl. f_equal. apply IH; [lia | reflexivity].
    + apply IH; [lia |]. rewrite !length_app. simpl. lia.
Qed.

Lemma num_batches_of bs (sampler : list nat) :
  length (batch_sampler bs [] sampler) = num_batches bs (length sampler).
Proof.
  unfold num_batches. apply batch_sampler_length_indep; [| reflexivity].
  rewrite length_seq. reflexivity.
Qed.

Lemma batch_sampler_length bs (l cur : list nat) :
  length cur < bs ->
  length (batch_sampler bs cur l) = (length cur + length l + bs - 1) / bs.
Proof.
  revert cur. induction l as [|x rest IH]; intros cur Hc; simpl.
  - destruct cur as [|c cur]; simpl in *.
    + symmetry. apply Nat.div_small. lia.
    + apply (Nat.div_unique _ _ _ (length cur)); lia.
  - rewrite length_app. simpl.
    destruct (length cur + 1 =? bs)%nat eqn:E.
    + apply Nat.eqb_eq in E. simpl. rewrite IH by (simpl; lia). simpl.
      replace (length cur + S (length rest) + bs - 1)
        with (1 * bs + (length rest + bs - 1)) by lia.
      rewrite Nat.div_add_l by lia. lia.
    + apply Nat.eqb_neq in E. rewrite IH by (rewrite length_app; simpl; lia).
      rewrite length_app. simpl. f_equal. lia.
Qed.

(** With a positive batch size a loader yields [len(loader)] batches. *)
Lemma batches_in_len_of h loader :
  0 < dl_batch_size loader -> batches_in h loader = len_of h loader.
Proof.
  intros Hbs. unfold batches_in, len_of, num_batches.
  rewrite batch_sampler_length by (simpl; lia).
  simpl. rewrite length_seq. reflexivity.
Qed.



(** *** Reading a dataset through the heap *)

Lemma deref_ok_inv l w w' o :
  deref l w = (w', Ok o) -> w' = w /\ w_heap w !! l = Some o.
Proof.
  unfold deref. destruct (w_heap w !! l) as [o'|]; simpl.
  - unfold ret. intros H; inversion H; auto.
  - unfold raise. discriminate.
Qed.

Lemma JSONLDataset_self_ok_inv self w w' d :
  JSONLDataset.self_ self w = (w', Ok d) ->
  w' = w /\ w_heap w !! self = Some (ObjJSONLDataset d).
Proof.
  unfold JSONLDataset.self_. intros H.
  apply bind_ok_inv in H as (w1 & o & H1 & H2).
  apply deref_ok_inv in H1 as [-> H1].
  destruct o; [| discriminate]. unfold ret in H2. inversion H2; subst. auto.
Qed.

Lemma DetectionDataset_self_ok_inv self w w' d :
  DetectionDataset.self_ self w = (w', Ok d) ->
  w' = w /\ w_heap w !! self = Some (ObjDetectionDataset d).
Proof.
  unfold DetectionDataset.self_. intros H.
  apply bind_ok_inv in H as (w1 & o & H1 & H2).
  apply deref_ok_inv in H1 as [-> H1].
  destruct o; [discriminate |]. unfold ret in H2. inversion H2; subst. auto.
Qed.

Lemma DetectionDataset_len_ok_inv self w w' n :
  DetectionDataset.__len__ self w = (w', Ok n) ->
  w' = w /\ n = dataset_size (w_heap w) self /\ is_Some (heap_entries (w_heap w) self).
Proof.
  unfold DetectionDataset.__len__, JSONLDataset.__len__. intros H.
  apply bind_ok_inv in H as (w1 & d & H1 & H2).
  apply DetectionDataset_self_ok_inv in H1 as [-> H1].
  apply bind_ok_inv in H2 as (w2 & j & H2 & H3).
  apply JSONLDataset_self_ok_inv in H2 as [-> H2].
  unfold ret in H3. inversion H3; subst.
  unfold dataset_size, heap_entries, heap_dataset. rewrite H1, H2. eauto.
Qed.

Lemma loader_len_ok_inv loader w w' n :
  loader_len loader w = (w', Ok n) -> w' = w /\ n = len_of (w_heap w) loader.
Proof.
  unfold loader_len. intros H.
  apply bind_ok_inv in H as (w1 & k & H1 & H2).
  apply DetectionDataset_len_ok_inv in H1 as (-> & -> & _).
  unfold ret in H2. inversion H2; subst. auto.
Qed.

Lemma loader_sampler_ok_inv loader w w' sampler :
  loader_sampler loader w = (w', Ok sampler) ->
  same_calls w w' /\ length sampler = dataset_size (w_heap w) (dl_dataset loader).
Proof.
  intros H. split.
  - pose proof (loader_sampler_keeps loader w) as K. rewrite H in K. exact K.
  - unfold loader_sampler in H.
    apply bind_ok_inv in H as (w1 & k & H1 & H2).
    apply DetectionDataset_len_ok_inv in H1 as (-> & -> & _).
    destruct (dl_shuffle loader).
    + unfold randperm in H2. inversion H2; subst.
      rewrite permute_length, length_seq. reflexivity.
    + unfold ret in H2. inversion H2; subst. apply length_seq.
Qed.

(** *** Loops that run to their end *)

Lemma foldM_ok_from {A St} (body : St -> A -> M St) (I : nat -> St -> World -> Prop) l :
  forall k0,
  (forall k x s w s' w',
      l !! k = Some x -> I (k0 + k) s w -> body s x w = (w', Ok s') ->
      I (k0 + S k) s' w') ->
  forall s w s' w',
    I k0 s w -> foldM body s l w = (w', Ok s') -> I (k0 + length l) s' w'.
Proof.
  induction l as [|x xs IH]; intros k0 Hstep s w s' w' H0 Hrun; simpl in *.
  - unfold ret in Hrun. inversion Hrun; subst. rewrite Nat.add_0_r. exact H0.
  - apply bind_ok_inv in Hrun as (w1 & s1 & Hb & Hrest).
    replace (k0 + S (length xs)) with (S k0 + length xs) by lia.
    apply (IH (S k0)) with (s := s1) (w := w1); [| | exact Hrest].
    + intros k y t v t' v' Hy Hi Hrun'.
      replace (S k0 + S k) with (k0 + S (S k)) by lia.
      apply (Hstep (S k) y t v t' v'); [exact Hy | | exact Hrun'].
      replace (k0 + S k) with (S k0 + k) by lia. exact Hi.
    + replace (S k0) with (k0 + 1) by lia.
      apply (Hstep 0 x s w s1 w1); [reflexivity | | exact Hb].
      rewrite Nat.add_0_r. exact H0.
Qed.

Lemma foldM_ok_inv {A St} (body : St -> A -> M St) (I : nat -> St -> World -> Prop) l :
  (forall k x s w s' w',
      l !! k = Some x -> I k s w -> body s x w = (w', Ok s') -> I (S k) s' w') ->
  forall s w s' w',
    I 0 s w -> foldM body s l w = (w', Ok s') -> I (length l) s' w'.
Proof.
  intros Hstep s w s' w' H0 Hrun.
  apply (foldM_ok_from body I l 0 Hstep s w s' w' H0 Hrun).
Qed.

(** *** One batch *)

Lemma truediv_ok_inv x n w w' a :
  truediv x n w = (w', Ok a) -> w' = w /\ n <> 0 /\ a = num_div x n.
Proof.
  unfold truediv. destruct (n =? 0)%nat eqn:E.
  - unfold raise. discriminate.
  - apply Nat.eqb_neq in E. unfold ret. intros H; inversion H; auto.
Qed.

Lemma with_ctx_ok_inv {A} enter leave (body : M A) w w' a :
  with_ctx enter leave body w = (w', Ok a) ->
  exists w1, body (fst (log enter w)) = (w1, Ok a) /\ w' = fst (log leave w1).
Proof.
  unfold with_ctx. destruct (body (log enter w).1) as [w1 r].
  intros H; inversion H; subst. eauto.
Qed.

Lemma load_local_ok_inv var v w w' x :
  load_local var v w = (w', Ok x) -> w' = w /\ v = Some x.
Proof.
  destruct v as [y|]; simpl; [| unfold raise; discriminate].
  unfold ret. intros H; inversion H; auto.
Qed.

(** Take apart a run that returned: one hypothesis for every step. *)
Ltac run_inv H :=
  lazymatch type of H with
  | bind _ _ _ = (_, Ok _) =>
      let w1 := fresh "w" in
      let a := fresh "a" in
      let H1 := fresh "Hrun" in
      apply bind_ok_inv in H as (w1 & a & H1 & H); run_inv H1; run_inv H
  | log _ _ = (_, Ok _) => unfold log in H; inversion H; subst; clear H
  | ret _ _ = (_, Ok _) => unfold ret in H; inversion H; subst; clear H
  | get_trace _ = (_, Ok _) => unfold get_trace in H; inversion H; subst; clear H
  | loader_len _ _ = (_, Ok _) => apply loader_len_ok_inv in H as [-> ->]
  | truediv _ _ _ = (_, Ok _) => apply truediv_ok_inv in H as (-> & ? & ->)
  | load_local _ _ _ = (_, Ok _) => apply load_local_ok_inv in H as (-> & ->)
  | with_ctx _ _ _ _ = (_, Ok _) =>
      let w1 := fresh "w" in
      apply with_ctx_ok_inv in H as (w1 & H & ->); run_inv H
  | (match ?p with _ => _ end) _ = (_, Ok _) => destruct p; run_inv H
  | _ => idtac
  end.

Lemma train_step_ok_inv train_loader train_loss avg b w w' train_loss' avg' :
  train_step train_loader (train_loss, avg) b w = (w', Ok (train_loss', avg')) ->
  let evs := train_step_events (w_trace w) b in
  w_trace w' = w_trace w ++ evs /\ w_heap w' = w_heap w /\
  (exists loss, forward_losses evs = [loss] /\ train_loss' = num_add train_loss loss) /\
  len_of (w_heap w) train_loader <> 0 /\
  avg' = Some (num_div train_loss' (len_of (w_heap w) train_loader)).
Proof.
  destruct b as [inputs answers]. unfold train_step. intros H.
  unfold tokenizer, model in H. run_inv H.
  simpl in *. rewrite <- !app_assoc. simpl.
  repeat split; eauto.
Qed.

Lemma val_step_ok_inv val_loss b w w' val_loss' :
  val_step val_loss b w = (w', Ok val_loss') ->
  let evs := val_step_events (w_trace w) b in
  w_trace w' = w_trace w ++ evs /\ w_heap w' = w_heap w /\
  (exists loss, forward_losses evs = [loss] /\ val_loss' = num_add val_loss loss).
Proof.
  destruct b as [inputs answers]. unfold val_step. intros H.
  unfold tokenizer, model in H. run_inv H.
  simpl in *. rewrite <- !app_assoc. simpl.
  repeat split; eauto.
Qed.

(** *** One pass over a loader *)

Lemma for_batches_ok_inv {St} loader (body : St -> features * list json -> M St)
    (I : nat -> St -> World -> Prop) s w s' w' :
  (forall k s v v', I k s v -> same_calls v v' -> I k s v') ->
  (forall k b s v s' v', I k s v -> body s b v = (v', Ok s') -> I (S k) s' v') ->
  I 0 s w ->
  for_batches loader s body w = (w', Ok s') ->
  I (batches_in (w_heap w) loader) s' w'.
Proof.
  intros Hframe Hstep H0 Hrun. unfold for_batches in Hrun.
  apply bind_ok_inv in Hrun as (w1 & sampler & Hs & Hrun).
  apply loader_sampler_ok_inv in Hs as [Hsame Hlen].
  unfold batches_in. rewrite <- Hlen, <- num_batches_of.
  revert Hrun. apply foldM_ok_inv; [| eapply Hframe; eauto].
  intros k indices t v t' v' _ Hi Hb.
  apply bind_ok_inv in Hb as (v1 & b & Hf & Hb).
  eapply Hstep; [| exact Hb]. eapply Hframe; [exact Hi |].
  pose proof (loader_fetch_keeps loader indices v) as K. rewrite Hf in K. exact K.
Qed.

Lemma concat_replicate_S {A} k (x : list A) :
  concat (replicate (S k) x) = concat (replicate k x) ++ x.
Proof. rewrite replicate_S_end, concat_app. simpl. rewrite app_nil_r. reflexivity. Qed.

Lemma sum_losses_snoc losses x :
  sum_losses (losses ++ [x]) = num_add (sum_losses losses) x.
Proof. unfold sum_losses. rewrite fold_left_app. reflexivity. Qed.

Lemma train_step_events_calls history b :
  map call_of (train_step_events history b) = train_step_calls.
Proof. destruct b. reflexivity. Qed.

Lemma val_step_events_calls history b :
  map call_of (val_step_events history b) = val_step_calls.
Proof. destruct b. reflexivity. Qed.

Lemma train_step_events_no_print history b :
  Forall (fun ev => is_print ev = false) (train_step_events history b).
Proof. destruct b. unfold train_step_events. repeat constructor. Qed.

Lemma val_step_events_no_print history b :
  Forall (fun ev => is_print ev = false) (val_step_events history b).
Proof. destruct b. unfold val_step_events. repeat constructor. Qed.

(** The training loop of one epoch, when it runs to its end. *)
Lemma train_loop_ok_inv train_loader avg0 w w' train_loss avg :
  for_batches train_loader (num_zero, avg0) (train_step train_loader) w
    = (w', Ok (train_loss, avg)) ->
  let nt := batches_in (w_heap w) train_loader in
  let len := len_of (w_heap w) train_loader in
  exists evs,
    w_trace w' = w_trace w ++ evs /\ w_heap w' = w_heap w /\
    map call_of evs = concat (replicate nt train_step_calls) /\
    length (forward_losses evs) = nt /\
    Forall (fun ev => is_print ev = false) evs /\
    train_loss = sum_losses (forward_losses evs) /\
    (nt = 0 -> avg = avg0) /\
    (nt <> 0 -> len <> 0 /\ avg = Some (num_div train_loss len)).
Proof.
  intros Hrun nt len.
  pose (I := fun (k : nat) (s : num * option num) (v : World) =>
    exists evs,
      w_trace v = w_trace w ++ evs /\ w_heap v = w_heap w /\
      map call_of evs = concat (replicate k train_step_calls) /\
      length (forward_losses evs) = k /\
      Forall (fun ev => is_print ev = false) evs /\
      fst s = sum_losses (forward_losses evs) /\
      (k = 0 -> snd s = avg0) /\
      (k <> 0 -> len <> 0 /\ snd s = Some (num_div (fst s) len))).
  apply (for_batches_ok_inv train_loader (train_step train_loader) I) in Hrun.
  - exact Hrun.
  - intros k s v v' (evs & Ht & Hh & Hrest) [Hh' Ht'].
    exists evs. rewrite Ht', Hh'. auto.
  - intros k b [tl av] v [tl' av'] v' (evs & Ht & Hh & Hc & Hn & Hp & Hs & _ & _) Hb.
    apply train_step_ok_inv in Hb as (Ht' & Hh' & (loss & Hl & Htl) & Hlen & Hav).
    pose proof (train_step_events_calls (w_trace v) b) as Hcalls.
    pose proof (train_step_events_no_print (w_trace v) b) as Hnp.
    set (es := train_step_events (w_trace v) b) in *. clearbody es.
    exists (evs ++ es).
    rewrite Ht', Ht, Hh', Hh, map_app, Hcalls, concat_replicate_S.
    unfold forward_losses in *. rewrite omap_app, Hl, length_app, Hn.
    rewrite sum_losses_snoc. simpl in *. subst tl.
    repeat split; auto using app_assoc; try lia.
    + rewrite Hc. reflexivity.
    + apply Forall_app. split; [exact Hp | exact Hnp].
    + rewrite Hh in Hlen. exact Hlen.
    + rewrite Hav, Hh. reflexivity.
  - exists []. rewrite app_nil_r. simpl. repeat split; auto. lia.
Qed.

(** The validation loop of one epoch, when it runs to its end. *)
Lemma val_loop_ok_inv val_loader w w' val_loss :
  for_batches val_loader num_zero val_step w = (w', Ok val_loss) ->
  let nv := batches_in (w_heap w) val_loader in
  exists evs,
    w_trace w' = w_trace w ++ evs /\ w_heap w' = w_heap w /\
    map call_of evs = concat (replicate nv val_step_calls) /\
    length (forward_losses evs) = nv /\
    Forall (fun ev => is_print ev = false) evs /\
    val_loss = sum_losses (forward_losses evs).
Proof.
  intros Hrun nv.
  pose (I := fun (k : nat) (s : num) (v : World) =>
    exists evs,
      w_trace v = w_trace w ++ evs /\ w_heap v = w_heap w /\
      map call_of evs = concat (replicate k val_step_calls) /\
      length (forward_losses evs) = k /\
      Forall (fun ev => is_print ev = false) evs /\
      s = sum_losses (forward_losses evs)).
  apply (for_batches_ok_inv val_loader val_step I) in Hrun.
  - exact Hrun.
  - intros k s v v' (evs & Ht & Hh & Hrest) [Hh' Ht'].
    exists evs. rewrite Ht', Hh'. auto.
  - intros k b vl v vl' v' (evs & Ht & Hh & Hc & Hn & Hp & Hs) Hb.
    apply val_step_ok_inv in Hb as (Ht' & Hh' & (loss & Hl & Hvl)).
    pose proof (val_step_events_calls (w_trace v) b) as Hcalls.
    pose proof (val_step_events_no_print (w_trace v) b) as Hnp.
    set (es := val_step_events (w_trace v) b) in *. clearbody es.
    exists (evs ++ es).
    rewrite Ht', Ht, Hh', Hh, map_app, Hcalls, concat_replicate_S.
    unfold forward_losses in *. rewrite omap_app, Hl, length_app, Hn.
    rewrite sum_losses_snoc. simpl in *. subst vl.
    repeat split; auto using app_assoc; try lia.
    + rewrite Hc. reflexivity.
    + apply Forall_app. split; [exact Hp | exact Hnp].
  - exists []. rewrite app_nil_r. simpl. repeat split; auto.
Qed.

(** *** One epoch and a whole run *)

Lemma weights_output_dir_checkpoint epoch :
  weights_output_dir epoch = checkpoint_dir (S epoch).
Proof. unfold weights_output_dir, checkpoint_dir. rewrite Nat.add_1_r. reflexivity. Qed.

Lemma epoch_body_ok_inv train_loader val_loader epochs avg0 epoch w w' avg' :
  epoch_body train_loader val_loader epochs avg0 epoch w = (w', Ok avg') ->
  let h := w_heap w in
  let nt := batches_in h train_loader in
  let nv := batches_in h val_loader in
  exists tr va avg_t avg_v,
    w_trace w' = w_trace w ++ epoch_events tr va avg_t avg_v (S epoch) /\
    w_heap w' = h /\
    map call_of tr = concat (replicate nt train_step_calls) /\
    map call_of va = concat (replicate nv val_step_calls) /\
    length (forward_losses tr) = nt /\ length (forward_losses va) = nv /\
    no_print tr /\ no_print va /\
    avg' = Some avg_t /\
    (nt = 0 -> avg0 = Some avg_t) /\
    (nt <> 0 -> len_of h train_loader <> 0 /\
                avg_t = num_div (sum_losses (forward_losses tr)) (len_of h train_loader)) /\
    len_of h val_loader <> 0 /\
    avg_v = num_div (sum_losses (forward_losses va)) (len_of h val_loader).
Proof.
  intros H h nt nv. unfold epoch_body, tqdm in H. run_inv H.
  match goal with
  | Hrt : for_batches _ _ (train_step _) _ = _ |- _ =>
      apply train_loop_ok_inv in Hrt as (tr & Ht & Hh & Hc & Hn & Hp & Hs & Hz & Hnz)
  end.
  match goal with
  | Hrv : for_batches _ _ val_step _ = _ |- _ =>
      apply val_loop_ok_inv in Hrv as (va & Ht' & Hh' & Hc' & Hn' & Hp' & Hs')
  end.
  simpl in *. rewrite Hh' in *. rewrite Hh in *.
  exists tr, va. eexists. eexists.
  rewrite Ht', Ht, weights_output_dir_checkpoint. unfold epoch_events.
  rewrite <- !app_assoc. simpl.
  split; [reflexivity |].
  subst. repeat split; auto.
  - intros Hnt. symmetry. apply Hz, Hnt.
  - apply Hnz; assumption.
  - destruct (Hnz ltac:(assumption)) as [_ Ha]. injection Ha as Ha. exact Ha.
Qed.

Lemma epoch_events_calls tr va avg_t avg_v e nt nv :
  map call_of tr = concat (replicate nt train_step_calls) ->
  map call_of va = concat (replicate nv val_step_calls) ->
  map call_of (epoch_events tr va avg_t avg_v e) = epoch_calls nt nv e.
Proof.
  intros Ht Hv. unfold epoch_events, epoch_calls, train_phase_calls, val_phase_calls.
  rewrite !map_app, Ht, Hv. simpl. rewrite <- !app_assoc. reflexivity.
Qed.

Lemma epoch_trace_calls len_t len_v e p nt nv :
  epoch_batches_ok nt nv p ->
  map call_of (epoch_trace len_t len_v e p) = epoch_calls nt nv e.
Proof.
  intros (Ht & Hv & _). apply epoch_events_calls; assumption.
Qed.

Lemma epochs_trace_calls len_t len_v nt nv eps :
  Forall (epoch_batches_ok nt nv) eps ->
  forall j,
    map call_of (concat (imap (fun i => epoch_trace len_t len_v (S (j + i))) eps))
    = concat (map (epoch_calls nt nv) (seq (S j) (length eps))).
Proof.
  induction 1 as [|p eps Hp _ IH]; intros j; [reflexivity |].
  rewrite imap_cons. cbn [concat length seq map]. rewrite map_app.
  rewrite Nat.add_0_r, (epoch_trace_calls _ _ _ _ _ _ Hp). f_equal.
  rewrite <- (IH (S j)). do 2 f_equal. apply imap_ext. intros i q _. simpl.
  rewrite Nat.add_succ_r. reflexivity.
Qed.

(** A run of [train_model] that returns made the set-up calls and then,
    epoch after epoch, the calls of that epoch, printing the averages of
    the losses of the epoch; the heap is as before. *)
Lemma train_model_ok_inv train_loader val_loader epochs lr w w' :
  train_model train_loader val_loader epochs lr w = (w', Ok tt) ->
  let h := w_heap w in
  let nt := batches_in h train_loader in
  let nv := batches_in h val_loader in
  let len_t := len_of h train_loader in
  let len_v := len_of h val_loader in
  exists eps,
    length eps = epochs /\
    w_trace w' = w_trace w
                 ++ [EvAdamW lr; EvGetScheduler "linear" 12 (epochs * len_t); EvPrepare]
                 ++ concat (imap (fun i => epoch_trace len_t len_v (S i)) eps) /\
    w_heap w' = h /\
    Forall (epoch_batches_ok nt nv) eps /\
    (epochs <> 0 -> nt <> 0 /\ len_t <> 0 /\ len_v <> 0).
Proof.
  intros H h nt nv len_t len_v. unfold train_model in H. run_inv H.
  match goal with
  | Hf : foldM _ _ _ ?w0 = _ |- _ => rename Hf into Hfold; set (v0 := w0) in *
  end.
  simpl in nt, nv, len_t, len_v.
  pose (I := fun (k : nat) (avg : option num) (v : World) =>
    exists eps,
      length eps = k /\
      w_trace v = w_trace v0
                  ++ concat (imap (fun i => epoch_trace len_t len_v (S i)) eps) /\
      w_heap v = w_heap w /\
      Forall (epoch_batches_ok nt nv) eps /\
      (k = 0 -> avg = None) /\
      (k <> 0 -> nt <> 0 /\ len_t <> 0 /\ len_v <> 0)).
  apply (foldM_ok_inv _ I) in Hfold.
  - rewrite length_seq in Hfold. destruct Hfold as (eps & Hl & Ht & Hh & Hf & _ & Hnz).
    exists eps. simpl in *. rewrite Ht. rewrite <- !app_assoc. auto.
  - intros k e s v s' v' He (eps & Hl & Ht & Hh & Hf & Hz & Hnz) Hb.
    apply lookup_seq in He as [-> _]. simpl in Hb.
    apply epoch_body_ok_inv in Hb
      as (tr & va & a_t & a_v & Ht' & Hh' & Hct & Hcv & Hnt & Hnv & Hpt & Hpv
          & _ & Hz' & Hnz' & Hlv & Hav).
    rewrite Hh in Hh', Hct, Hcv, Hnt, Hnv, Hz', Hnz', Hlv, Hav.
    assert (nt <> 0) as Hnt0.
    { destruct k as [|k]; [| apply Hnz; lia].
      intros E. rewrite (Hz eq_refl) in Hz'. specialize (Hz' E). discriminate. }
    destruct (Hnz' Hnt0) as [Hlt Hat].
    exists (eps ++ [(tr, va)]).
    rewrite length_app, imap_app, concat_app. simpl.
    rewrite app_nil_r, Nat.add_0_r, Hl, Ht', Ht, Hh', <- app_assoc.
    split; [lia |]. split; [rewrite Hat, Hav; reflexivity |].
    split; [reflexivity |]. split; [| split; [lia | auto]].
    apply Forall_app. split; [exact Hf |]. constructor; [| constructor].
    repeat split; assumption.
  - exists []. simpl. rewrite app_nil_r. repeat split; auto; lia.
Qed.

(** The calls of a run that returns. *)
Lemma train_model_ok_calls train_loader val_loader epochs lr w w' :
  train_model train_loader val_loader epochs lr w = (w', Ok tt) ->
  let h := w_heap w in
  calls_since w w'
  = run_calls epochs (epochs * len_of h train_loader)
      (batches_in h train_loader) (batches_in h val_loader).
Proof.
  intros H h. apply train_model_ok_inv in H as (eps & Hl & Ht & _ & Hf & _).
  unfold calls_since, since. rewrite Ht, drop_app_length, map_app.
  unfold run_calls. f_equal.
  rewrite <- Hl. apply (epochs_trace_calls _ _ _ _ _ Hf 0).
Qed.

(** *** The training loop never touches the heap *)

Lemma keeps_calls_heap {A} (m : M A) : keeps same_calls m -> keeps same_heap m.
Proof. apply keeps_weaken. exact same_calls_heap. Qed.

Lemma truediv_keeps x n : keeps same_heap (truediv x n).
Proof. unfold truediv. repeat keeps_step. Qed.

Lemma load_local_keeps var v : keeps same_heap (load_local var v).
Proof. unfold load_local. repeat keeps_step. Qed.

Lemma for_batches_keeps {St} loader (s : St) body :
  (forall s b, keeps same_heap (body s b)) ->
  keeps same_heap (for_batches loader s body).
Proof.
  intros Hb. unfold for_batches.
  keeps_step; [apply keeps_calls_heap, loader_sampler_keeps |].
  keeps_step. keeps_step; [apply keeps_calls_heap, loader_fetch_keeps | apply Hb].
Qed.

Lemma train_step_keeps train_loader locals b :
  keeps same_heap (train_step train_loader locals b).
Proof.
  destruct locals as [train_loss avg], b as [inputs answers].
  unfold train_step, tokenizer, model.
  keeps_step; try apply same_heap_log.
  repeat (keeps_step; try apply same_heap_log).
  - apply keeps_calls_heap, loader_len_keeps.
  - apply truediv_keeps.
Qed.

Lemma val_step_keeps val_loss b : keeps same_heap (val_step val_loss b).
Proof.
  destruct b as [inputs answers]. unfold val_step, tokenizer, model.
  repeat (keeps_step; try apply same_heap_log).
Qed.

Lemma epoch_body_keeps train_loader val_loader epochs avg epoch :
  keeps same_heap (epoch_body train_loader val_loader epochs avg epoch).
Proof.
  unfold epoch_body, tqdm.
  keeps_step; [keeps_step |].
  keeps_step; [apply for_batches_keeps, train_step_keeps |].
  keeps_step.
  keeps_step; [apply load_local_keeps |].
  keeps_step; [keeps_step |].
  keeps_step; [keeps_step |].
  keeps_step.
  - keeps_step; try apply same_heap_log.
    keeps_step; [apply for_batches_keeps, val_step_keeps |].
    keeps_step; [apply keeps_calls_heap, loader_len_keeps |].
    keeps_step; [apply truediv_keeps | keeps_step].
  - repeat keeps_step.
Qed.

Lemma train_model_keeps train_loader val_loader epochs lr :
  keeps same_heap (train_model train_loader val_loader epochs lr).
Proof.
  unfold train_model.
  keeps_step; [keeps_step |].
  keeps_step; [apply keeps_calls_heap, loader_len_keeps |].
  keeps_step; [keeps_step |].
  keeps_step; [keeps_step |].
  keeps_step; [| keeps_step].
  keeps_step. apply epoch_body_keeps.
Qed.

(** *** Exceptions are never swallowed *)

Lemma propagates_ret {A} (a : A) : propagates (ret a).
Proof. intros w. reflexivity. Qed.

Lemma propagates_raise {A} e : propagates (raise (A := A) e).
Proof. intros w. exists []. reflexivity. Qed.

Lemma reraises_raise {A} e : reraises (raise (A := A) e).
Proof. intros w. exists []. reflexivity. Qed.

Lemma propagates_lift {A} (r : result A) : propagates (lift r).
Proof. destruct r; [apply propagates_ret | apply propagates_raise]. Qed.

Lemma propagates_log ev : propagates (log ev).
Proof. intros w. reflexivity. Qed.

Lemma propagates_log_data ev : propagates (log_data ev).
Proof. intros w. reflexivity. Qed.

Lemma propagates_get_trace : propagates get_trace.
Proof. intros w. reflexivity. Qed.

Lemma propagates_alloc o : propagates (alloc o).
Proof. intros w. reflexivity. Qed.

Lemma propagates_randperm n : propagates (randperm n).
Proof. intros w. reflexivity. Qed.

Lemma propagates_deref l : propagates (deref l).
Proof.
  intros w. unfold deref. destruct (w_heap w !! l); [reflexivity |].
  exists []. reflexivity.
Qed.

Lemma propagates_bind {A B} (m : M A) (k : A -> M B) :
  propagates m -> (forall a, propagates (k a)) -> propagates (bind m k).
Proof.
  intros Hm Hk w. unfold bind. specialize (Hm w).
  destruct (m w) as [w1 [a|e]]; [| exact Hm].
  specialize (Hk a w1). destruct (k a w1) as [w2 [b|e]].
  - congruence.
  - destruct Hk as [l Hl]. exists l. congruence.
Qed.

Lemma propagates_foldM {A St} (body : St -> A -> M St) l :
  (forall s x, propagates (body s x)) -> forall s, propagates (foldM body s l).
Proof.
  intros Hb. induction l as [|x xs IH]; intros s; simpl.
  - apply propagates_ret.
  - apply propagates_bind; [apply Hb | intros s'; apply IH].
Qed.

Lemma propagates_mapM {A B} (f : A -> M B) l :
  (forall x, propagates (f x)) -> propagates (mapM f l).
Proof.
  intros Hf. induction l as [|x xs IH]; simpl.
  - apply propagates_ret.
  - apply propagates_bind; [apply Hf | intros y].
    apply propagates_bind; [apply IH | intros ys; apply propagates_ret].
Qed.

Lemma propagates_with_ctx {A} enter leave (body : M A) :
  propagates body -> propagates (with_ctx enter leave body).
Proof.
  intros Hb w. unfold with_ctx. specialize (Hb (fst (log enter w))).
  destruct (body (fst (log enter w))) as [w1 r]. simpl in *. exact Hb.
Qed.

Lemma propagates_try_except {A} (m : M A) handler :
  propagates m -> (forall e h, handler e = Some h -> reraises h) ->
  propagates (try_except m handler).
Proof.
  intros Hm Hh w. unfold try_except. specialize (Hm w).
  destruct (m w) as [w1 [a|e]]; [exact Hm |].
  destruct (handler e) as [h|] eqn:E; [| exact Hm].
  specialize (Hh _ _ E w1). destruct (h w1) as [w2 [a|e']]; [contradiction |].
  destruct Hm as [l Hl], Hh as [l' Hl'].
  exists ((l ++ [e]) ++ l'). rewrite Hl', Hl, <- !app_assoc. reflexivity.
Qed.

Ltac propagates_step :=
  match goal with
  | |- propagates (ret _) => apply propagates_ret
  | |- propagates (raise _) => apply propagates_raise
  | |- propagates (lift _) => apply propagates_lift
  | |- propagates (log _) => apply propagates_log
  | |- propagates (log_data _) => apply propagates_log_data
  | |- propagates get_trace => apply propagates_get_trace
  | |- propagates (alloc _) => apply propagates_alloc
  | |- propagates (randperm _) => apply propagates_randperm
  | |- propagates (deref _) => apply propagates_deref
  | |- propagates (bind _ _) => apply propagates_bind; [| intros ?]
  | |- propagates (foldM _ _ _) => apply propagates_foldM; intros ? ?
  | |- propagates (mapM _ _) => apply propagates_mapM; intros ?
  | |- propagates (with_ctx _ _ _) => apply propagates_with_ctx
  | |- propagates (match ?x with _ => _ end) => destruct x
  | |- propagates (if ?b then _ else _) => destruct b
  end.

Lemma JSONLDataset_init_propagates path dir :
  propagates (JSONLDataset.__init__ path dir).
Proof. unfold JSONLDataset.__init__, JSONLDataset._load_entries. repeat propagates_step. Qed.

Lemma JSONLDataset_getitem_propagates self idx :
  propagates (JSONLDataset.__getitem__ self idx).
Proof.
  unfold JSONLDataset.__getitem__, JSONLDataset.self_, list_getitem.
  repeat propagates_step.
  apply propagates_try_except; [repeat propagates_step |].
  intros e h. destruct e; intros H; inversion H; subst. apply reraises_raise.
Qed.

Lemma DetectionDataset_init_propagates path dir :
  propagates (DetectionDataset.__init__ path dir).
Proof.
  unfold DetectionDataset.__init__.
  propagates_step; [apply JSONLDataset_init_propagates | propagates_step].
Qed.

Lemma DetectionDataset_len_propagates self : propagates (DetectionDataset.__len__ self).
Proof.
  unfold DetectionDataset.__len__, DetectionDataset.self_,
    JSONLDataset.__len__, JSONLDataset.self_.
  repeat propagates_step.
Qed.

Lemma DetectionDataset_getitem_propagates self idx :
  propagates (DetectionDataset.__getitem__ self idx).
Proof.
  unfold DetectionDataset.__getitem__, DetectionDataset.self_.
  propagates_step; [repeat propagates_step |].
  propagates_step; [apply JSONLDataset_getitem_propagates |].
  repeat propagates_step.
Qed.

Lemma DataLoader_init_propagates dataset batch_size shuffle :
  propagates (DataLoader_init dataset batch_size shuffle).
Proof.
  unfold DataLoader_init.
  repeat first [apply DetectionDataset_len_propagates | propagates_step].
Qed.

Lemma loader_len_propagates loader : propagates (loader_len loader).
Proof.
  unfold loader_len.
  propagates_step; [apply DetectionDataset_len_propagates | propagates_step].
Qed.

Lemma for_batches_propagates {St} loader (s : St) body :
  (forall s b, propagates (body s b)) -> propagates (for_batches loader s body).
Proof.
  intros Hb. unfold for_batches, loader_sampler, loader_fetch, collate_fn, zip_star.
  propagates_step.
  - propagates_step; [apply DetectionDataset_len_propagates | repeat propagates_step].
  - propagates_step. propagates_step; [| apply Hb].
    propagates_step; [| repeat propagates_step].
    propagates_step. apply DetectionDataset_getitem_propagates.
Qed.

Lemma train_model_propagates train_loader val_loader epochs lr :
  propagates (train_model train_loader val_loader epochs lr).
Proof.
  unfold train_model, epoch_body, tqdm, load_local, truediv.
  repeat first
    [ apply loader_len_propagates
    | apply for_batches_propagates; intros ? [? ?];
      unfold train_step, val_step, tokenizer, model, truediv
    | propagates_step ].
Qed.

Lemma main_propagates : propagates main.
Proof.
  unfold main.
  do 3 (propagates_step; [propagates_step |]).
  do 2 (propagates_step; [apply DetectionDataset_init_propagates |]).
  do 2 (propagates_step; [apply DataLoader_init_propagates |]).
  apply train_model_propagates.
Qed.

(** *** Running the dataset classes *)

Lemma deref_run w l o : w_heap w !! l = Some o -> deref l w = (w, Ok o).
Proof. unfold deref. intros ->. reflexivity. Qed.

Lemma JSONLDataset_self_run w self d :
  w_heap w !! self = Some (ObjJSONLDataset d) -> JSONLDataset.self_ self w = (w, Ok d).
Proof.
  intros H. unfold JSONLDataset.self_. rewrite (bind_run _ _ _ _ _ (deref_run _ _ _ H)).
  reflexivity.
Qed.

Lemma DetectionDataset_self_run w self d :
  w_heap w !! self = Some (ObjDetectionDataset d) ->
  DetectionDataset.self_ self w = (w, Ok d).
Proof.
  intros H. unfold DetectionDataset.self_.
  rewrite (bind_run _ _ _ _ _ (deref_run _ _ _ H)). reflexivity.
Qed.

Lemma heap_entries_inv h self es :
  heap_entries h self = Some es ->
  exists d j, h !! self = Some (ObjDetectionDataset d) /\
              h !! dataset d = Some (ObjJSONLDataset j) /\ entries j = es.
Proof.
  unfold heap_entries, heap_dataset.
  destruct (h !! self) as [[j|d]|] eqn:E1; try discriminate.
  destruct (h !! dataset d) as [[j|d']|] eqn:E2; try discriminate.
  intros H; inversion H; subst. eauto.
Qed.

Lemma DetectionDataset_len_run w self es :
  heap_entries (w_heap w) self = Some es ->
  DetectionDataset.__len__ self w = (w, Ok (length es)).
Proof.
  intros H. apply heap_entries_inv in H as (d & j & H1 & H2 & <-).
  unfold DetectionDataset.__len__, JSONLDataset.__len__.
  rewrite (bind_run _ _ _ _ _ (DetectionDataset_self_run _ _ _ H1)).
  rewrite (bind_run _ _ _ _ _ (JSONLDataset_self_run _ _ _ H2)). reflexivity.
Qed.

Lemma list_getitem_run {A} (l : list A) idx x w :
  (0 <= idx)%Z -> l !! Z.to_nat idx = Some x -> list_getitem l idx w = (w, Ok x).
Proof.
  intros H0 Hx. unfold list_getitem.
  destruct (idx <? 0)%Z eqn:E; [apply Z.ltb_lt in E; lia |].
  rewrite E, Hx. reflexivity.
Qed.

Lemma load_entries_loop lines es :
  Forall2 parses lines es ->
  forall acc w,
    foldM (fun entries line => data <- lift (json_loads line) ;; ret (entries ++ [data]))
          acc lines w
    = (w, Ok (acc ++ es)).
Proof.
  induction 1 as [|line e lines es Hp _ IH]; intros acc w; simpl.
  - rewrite app_nil_r. reflexivity.
  - unfold bind at 1 2. unfold parses in Hp. rewrite Hp. simpl.
    rewrite IH, <- app_assoc. reflexivity.
Qed.

Lemma load_entries_loop_bad good es bad rest e :
  Forall2 parses good es -> json_loads bad = Raise e ->
  forall acc w,
    foldM (fun entries line => data <- lift (json_loads line) ;; ret (entries ++ [data]))
          acc (good ++ bad :: rest) w
    = raise e w.
Proof.
  intros Hg Hb. induction Hg as [|line x good es Hp _ IH]; intros acc w; simpl.
  - unfold bind at 1 2. rewrite Hb. reflexivity.
  - unfold bind at 1 2. unfold parses in Hp. rewrite Hp. simpl. apply IH.
Qed.

Lemma JSONLDataset_init_run path dir lines es w :
  file_lines path = Ok lines -> Forall2 parses lines es ->
  JSONLDataset.__init__ path dir w
  = alloc (ObjJSONLDataset {| jsonl_file_path := path;
                              image_directory_path := dir;
                              entries := es |}) w.
Proof.
  intros Hf Hp. unfold JSONLDataset.__init__, JSONLDataset._load_entries.
  unfold bind at 1 2. rewrite Hf. simpl.
  rewrite (load_entries_loop _ _ Hp). reflexivity.
Qed.

Lemma JSONLDataset_init_bad path dir good bad rest es e w :
  file_lines path = Ok (good ++ bad :: rest) ->
  Forall2 parses good es -> json_loads bad = Raise e ->
  JSONLDataset.__init__ path dir w = raise e w.
Proof.
  intros Hf Hp Hb. unfold JSONLDataset.__init__, JSONLDataset._load_entries.
  unfold bind at 1 2. rewrite Hf. simpl.
  rewrite (load_entries_loop_bad _ _ _ _ _ Hp Hb). reflexivity.
Qed.

(** What [JSONLDataset.__getitem__] does with an index in range whose
    entry names an image. *)
Lemma JSONLDataset_getitem_run w self d idx entry name :
  w_heap w !! self = Some (ObjJSONLDataset d) ->
  (0 <= idx < Z.of_nat (length (entries d)))%Z ->
  entries d !! Z.to_nat idx = Some entry ->
  subscript entry "image" = Ok (JStr name) ->
  let image_path := os_path_join (image_directory_path d) name in
  let w1 := fst (log_data (DImageOpen image_path) w) in
  JSONLDataset.__getitem__ self idx w
  = match image_open image_path with
    | Ok image => (w1, Ok (image, entry))
    | Raise (FileNotFoundError msg) =>
        raise (FileNotFoundError ("Image file " +:+ image_path +:+ " not found."))
              (fst (raise (A := image) (FileNotFoundError msg) w1))
    | Raise e => raise e w1
    end.
Proof.
  intros Hs Hi He Hn image_path w1. unfold JSONLDataset.__getitem__.
  rewrite (bind_run _ _ _ _ _ (JSONLDataset_self_run _ _ _ Hs)).
  destruct (idx <? 0)%Z eqn:E1; [apply Z.ltb_lt in E1; lia |].
  destruct (idx >=? Z.of_nat (length (entries d)))%Z eqn:E2;
    [apply Z.geb_le in E2; lia |].
  simpl.
  rewrite (bind_run _ _ _ _ _ (list_getitem_run _ _ _ _ (proj1 Hi) He)).
  rewrite Hn. unfold lift at 1. unfold bind at 1. unfold ret at 1.
  fold image_path. unfold try_except, bind, log_data. fold w1. simpl.
  destruct (image_open image_path) as [img|e]; [reflexivity |].
  destruct e; reflexivity.
Qed.

(** An index out of range: the guard raises before anything is read. *)
Lemma JSONLDataset_getitem_out_of_range w self d idx :
  w_heap w !! self = Some (ObjJSONLDataset d) ->
  (idx < 0 \/ idx >= Z.of_nat (length (entries d)))%Z ->
  JSONLDataset.__getitem__ self idx w = raise (IndexError "Index out of range") w.
Proof.
  intros Hs Hi. unfold JSONLDataset.__getitem__.
  rewrite (bind_run _ _ _ _ _ (JSONLDataset_self_run _ _ _ Hs)).
  destruct Hi as [Hi|Hi].
  - apply Z.ltb_lt in Hi. rewrite Hi. reflexivity.
  - apply Z.ge_le, Z.geb_le in Hi. rewrite Hi, orb_true_r. reflexivity.
Qed.

Lemma heap_dataset_inv h self j :
  heap_dataset h self = Some j ->
  exists d, h !! self = Some (ObjDetectionDataset d) /\
            h !! dataset d = Some (ObjJSONLDataset j).
Proof.
  unfold heap_dataset. destruct (h !! self) as [[j'|d]|] eqn:E1; try discriminate.
  destruct (h !! dataset d) as [[j'|d']|] eqn:E2; try discriminate.
  intros H; inversion H; subst. eauto.
Qed.

Lemma entry_fields_inv entry name prefix suffix :
  entry_fields entry = Some (name, prefix, suffix) ->
  subscript entry "image" = Ok (JStr name) /\
  subscript entry "prefix" = Ok prefix /\ subscript entry "suffix" = Ok suffix.
Proof.
  unfold entry_fields.
  destruct (subscript entry "image") as [[]|]; try discriminate.
  destruct (subscript entry "prefix"); try discriminate.
  destruct (subscript entry "suffix"); try discriminate.
  intros H; inversion H; subst. auto.
Qed.

(** Building a [DetectionDataset] from a file all of whose lines parse. *)
Lemma DetectionDataset_init_run path dir lines es w :
  file_lines path = Ok lines -> Forall2 parses lines es ->
  exists self w1,
    DetectionDataset.__init__ path dir w = (w1, Ok self) /\
    heap_dataset (w_heap w1) self
    = Some {| jsonl_file_path := path; image_directory_path := dir; entries := es |} /\
    w_trace w1 = w_trace w /\ w_raised w1 = w_raised w /\ w_data w1 = w_data w.
Proof.
  intros Hf Hp. unfold DetectionDataset.__init__.
  unfold bind. rewrite (JSONLDataset_init_run _ _ _ _ _ Hf Hp).
  unfold alloc. simpl. do 2 eexists. split; [reflexivity |]. simpl.
  repeat split; auto.
  unfold heap_dataset. rewrite lookup_insert_eq. simpl.
  set (j := ObjJSONLDataset _). set (l1 := fresh (dom (w_heap w))).
  assert (fresh (dom (<[l1:=j]> (w_heap w))) <> l1) as Hne.
  { intros E. pose proof (is_fresh (dom (<[l1:=j]> (w_heap w)))) as Hfr.
    rewrite E in Hfr. apply Hfr. rewrite dom_insert_L. set_solver. }
  rewrite lookup_insert_ne by exact Hne.
  rewrite lookup_insert_eq. reflexivity.
Qed.

(** What [DetectionDataset.__getitem__] does with an index in range whose
    entry has the three keys of the data model. *)
Lemma DetectionDataset_getitem_run w self j idx entry name prefix suffix :
  heap_dataset (w_heap w) self = Some j ->
  (0 <= idx < Z.of_nat (length (entries j)))%Z ->
  entries j !! Z.to_nat idx = Some entry ->
  entry_fields entry = Some (name, prefix, suffix) ->
  let image_path := os_path_join (image_directory_path j) name in
  let w1 := fst (log_data (DImageOpen image_path) w) in
  DetectionDataset.__getitem__ self idx w
  = match image_open image_path with
    | Ok image => (w1, Ok (prefix, suffix, image))
    | Raise (FileNotFoundError msg) =>
        raise (FileNotFoundError ("Image file " +:+ image_path +:+ " not found."))
              (fst (raise (A := image) (FileNotFoundError msg) w1))
    | Raise e => raise e w1
    end.
Proof.
  intros Hd Hi He Hfld image_path w1.
  apply heap_dataset_inv in Hd as (d & H1 & H2).
  apply entry_fields_inv in Hfld as (Hn & Hp & Hs).
  unfold DetectionDataset.__getitem__.
  rewrite (bind_run _ _ _ _ _ (DetectionDataset_self_run _ _ _ H1)).
  unfold bind at 1.
  rewrite (JSONLDataset_getitem_run _ _ _ _ _ _ H2 Hi He Hn).
  fold image_path. fold w1.
  destruct (image_open image_path) as [img|e].
  - unfold bind. rewrite Hp, Hs. reflexivity.
  - destruct e; reflexivity.
Qed.

Lemma JSONLDataset_getitem_ok_inv self idx w w' img entry :
  JSONLDataset.__getitem__ self idx w = (w', Ok (img, entry)) ->
  exists d, w_heap w !! self = Some (ObjJSONLDataset d) /\
            (0 <= idx < Z.of_nat (length (entries d)))%Z /\
            entries d !! Z.to_nat idx = Some entry.
Proof.
  unfold JSONLDataset.__getitem__. intros H.
  apply bind_ok_inv in H as (w1 & d & H1 & H).
  apply JSONLDataset_self_ok_inv in H1 as [-> H1].
  exists d. split; [exact H1 |].
  destruct (idx <? 0)%Z eqn:E1; [discriminate |].
  destruct (idx >=? Z.of_nat (length (entries d)))%Z eqn:E2; [discriminate |].
  simpl in H. apply Z.ltb_ge in E1.
  assert (idx < Z.of_nat (length (entries d)))%Z as E3.
  { destruct (Z.lt_ge_cases idx (Z.of_nat (length (entries d)))) as [L|G]; [exact L |].
    apply Z.geb_le in G. congruence. }
  split; [lia |].
  apply bind_ok_inv in H as (w2 & entry' & H2 & H).
  unfold list_getitem in H2.
  destruct (idx <? 0)%Z eqn:E4; [apply Z.ltb_lt in E4; lia |]. rewrite E4 in H2.
  destruct (entries d !! Z.to_nat idx) as [x|] eqn:E5; [| discriminate].
  unfold ret in H2. inversion H2; subst.
  apply bind_ok_inv in H as (w3 & name & H3 & H).
  destruct name; try discriminate.
  unfold try_except in H.
  match type of H with
  | match ?m ?v with _ => _ end = _ => destruct (m v) as [w4 [[img' entry'']|e]] eqn:E6
  end.
  - inversion H; subst. run_inv E6.
    match goal with
    | Hl : lift _ _ = (_, Ok _) |- _ => apply lift_ok_inv in Hl as [_ ->]
    end.
    reflexivity.
  - destruct e; discriminate.
Qed.

Lemma DetectionDataset_getitem_ok_inv self idx w w' prefix suffix img :
  DetectionDataset.__getitem__ self idx w = (w', Ok (prefix, suffix, img)) ->
  exists j entry,
    heap_dataset (w_heap w) self = Some j /\
    (0 <= idx < Z.of_nat (length (entries j)))%Z /\
    entries j !! Z.to_nat idx = Some entry /\
    subscript entry "prefix" = Ok prefix /\ subscript entry "suffix" = Ok suffix.
Proof.
  unfold DetectionDataset.__getitem__. intros H.
  apply bind_ok_inv in H as (w1 & d & H1 & H).
  apply DetectionDataset_self_ok_inv in H1 as [-> H1].
  apply bind_ok_inv in H as (w2 & [img' entry] & H2 & H).
  pose proof H2 as H2'.
  apply JSONLDataset_getitem_ok_inv in H2 as (j & Hj & Hi & He).
  apply bind_ok_inv in H as (w3 & p & H3 & H).
  apply bind_ok_inv in H as (w4 & s & H4 & H).
  apply lift_ok_inv in H3 as [H3 ->]. apply lift_ok_inv in H4 as [H4 ->].
  unfold ret in H. inversion H; subst.
  exists j, entry. unfold heap_dataset. rewrite H1, Hj. auto.
Qed.

(** *** Empty loaders *)

Lemma loader_len_run loader w es :
  heap_entries (w_heap w) (dl_dataset loader) = Some es ->
  loader_len loader w = (w, Ok (len_of (w_heap w) loader)).
Proof.
  intros H. unfold loader_len.
  rewrite (bind_run _ _ _ _ _ (DetectionDataset_len_run _ _ _ H)).
  unfold len_of, dataset_size. rewrite H. reflexivity.
Qed.






(** *** Counting and filtering the calls of a run *)

Lemma count_if_app {A} (p : A -> bool) l1 l2 :
  count_if p (l1 ++ l2) = count_if p l1 + count_if p l2.
Proof. unfold count_if. rewrite List.filter_app, length_app. reflexivity. Qed.

Lemma count_if_concat_replicate {A} (p : A -> bool) n l :
  count_if p (concat (replicate n l)) = n * count_if p l.
Proof.
  induction n as [|n IH]; simpl; [reflexivity |].
  rewrite count_if_app, IH. reflexivity.
Qed.

Lemma count_if_concat_map {A B} (p : A -> bool) (g : B -> list A) c l :
  (forall x, count_if p (g x) = c) ->
  count_if p (concat (map g l)) = length l * c.
Proof.
  intros Hg. induction l as [|x l IH]; simpl; [reflexivity |].
  rewrite count_if_app, IH, Hg. reflexivity.
Qed.

Lemma omap_concat_replicate_nil {A B} (f : A -> option B) n l :
  omap f l = [] -> omap f (concat (replicate n l)) = [].
Proof.
  intros Hl. induction n as [|n IH]; simpl; [reflexivity |].
  rewrite omap_app, Hl, IH. reflexivity.
Qed.

Lemma omap_concat_map_singleton {A B C} (f : A -> option B) (g : C -> list A) h l :
  (forall x, omap f (g x) = [h x]) ->
  omap f (concat (map g l)) = map h l.
Proof.
  intros Hg. induction l as [|x l IH]; simpl; [reflexivity |].
  rewrite omap_app, IH, Hg. reflexivity.
Qed.

Lemma omap_concat_map_nil {A B C} (f : A -> option B) (g : C -> list A) l :
  (forall x, omap f (g x) = []) ->
  omap f (concat (map g l)) = [].
Proof.
  intros Hg. induction l as [|x l IH]; simpl; [reflexivity |].
  rewrite omap_app, IH, Hg. reflexivity.
Qed.

Lemma epoch_calls_saved nt nv e :
  omap saved_dir (epoch_calls nt nv e) = [checkpoint_dir e].
Proof.
  unfold epoch_calls, train_phase_calls, val_phase_calls, checkpoint_calls.
  rewrite !omap_app, !omap_concat_replicate_nil by reflexivity. reflexivity.
Qed.

Lemma epoch_calls_made nt nv e :
  omap made_dir (epoch_calls nt nv e) = [checkpoint_dir e].
Proof.
  unfold epoch_calls, train_phase_calls, val_phase_calls, checkpoint_calls.
  rewrite !omap_app, !omap_concat_replicate_nil by reflexivity. reflexivity.
Qed.

Lemma epoch_calls_no_scheduler nt nv e :
  omap scheduler_config (epoch_calls nt nv e) = [].
Proof.
  unfold epoch_calls, train_phase_calls, val_phase_calls, checkpoint_calls.
  rewrite !omap_app, !omap_concat_replicate_nil by reflexivity. reflexivity.
Qed.

Lemma epoch_calls_scheduler_steps nt nv e :
  count_if is_scheduler_step (epoch_calls nt nv e) = nt.
Proof.
  unfold epoch_calls, train_phase_calls, val_phase_calls, checkpoint_calls.
  rewrite !count_if_app, !count_if_concat_replicate.
  unfold count_if. simpl. lia.
Qed.

(** *** Names of the checkpoint directories *)

Lemma append_cancel_l (a x y : string) : a +:+ x = a +:+ y -> x = y.
Proof.
  induction a as [|c a IH]; simpl; intros H; [exact H |].
  inversion H. auto.
Qed.

Lemma str_of_nat_inj n m : str_of_nat n = str_of_nat m -> n = m.
Proof.
  unfold str_of_nat. intros H.
  apply (f_equal NilEmpty.uint_of_string) in H. rewrite !NilEmpty.usu in H.
  inversion H as [H']. apply (f_equal Nat.of_uint) in H'.
  rewrite !Unsigned.of_to in H'. exact H'.
Qed.

Lemma checkpoint_dir_inj e e' : checkpoint_dir e = checkpoint_dir e' -> e = e'.
Proof.
  unfold checkpoint_dir. intros H.
  apply append_cancel_l, append_cancel_l in H. apply str_of_nat_inj, H.
Qed.

Lemma checkpoint_dirs_NoDup j n : NoDup (map checkpoint_dir (seq j n)).
Proof.
  apply (NoDup_fmap_2_strong checkpoint_dir).
  - intros x y _ _. apply checkpoint_dir_inj.
  - apply NoDup_seq.
Qed.

(** *** Runs that return

    With ready loaders nothing raises: every access is in range, every
    entry loads, every batch has a sample and no division is by zero. *)

Lemma loader_ready_inv h loader :
  loader_ready h loader = true ->
  exists j,
    heap_dataset h (dl_dataset loader) = Some j /\
    0 < dl_batch_size loader /\ 0 < length (entries j) /\
    Forall (fun entry => entry_loads (image_directory_path j) entry = true) (entries j).
Proof.
  unfold loader_ready. destruct (heap_dataset h (dl_dataset loader)) as [j|];
    [| discriminate].
  intros H. apply andb_prop in H as [H H3]. apply andb_prop in H as [H1 H2].
  apply Nat.ltb_lt in H1, H2. exists j. repeat split; auto.
  apply Forall_forall. intros x Hx. rewrite forallb_forall in H3. apply H3.
  apply list_elem_of_In, Hx.
Qed.

Lemma loader_ready_entries h loader j :
  heap_dataset h (dl_dataset loader) = Some j ->
  heap_entries h (dl_dataset loader) = Some (entries j).
Proof. unfold heap_entries. intros ->. reflexivity. Qed.

Lemma getitem_returns w self j idx :
  heap_dataset (w_heap w) self = Some j ->
  Forall (fun entry => entry_loads (image_directory_path j) entry = true) (entries j) ->
  idx < length (entries j) ->
  exists w' t,
    DetectionDataset.__getitem__ self (Z.of_nat idx) w = (w', Ok t) /\
    w_heap w' = w_heap w.
Proof.
  intros Hd Hall Hi.
  destruct (lookup_lt_is_Some_2 _ _ Hi) as [entry He].
  pose proof (proj1 (Forall_lookup _ _) Hall _ _ He) as Hload.
  unfold entry_loads in Hload.
  destruct (entry_fields entry) as [[[name prefix] suffix]|] eqn:Hfld; [| discriminate].
  destruct (image_open (os_path_join (image_directory_path j) name)) as [img|e] eqn:Hopen;
    [| discriminate].
  assert (0 <= Z.of_nat idx < Z.of_nat (length (entries j)))%Z as Hz by lia.
  rewrite <- (Nat2Z.id idx) in He.
  rewrite (DetectionDataset_getitem_run _ _ _ _ _ _ _ _ Hd Hz He Hfld), Hopen.
  eauto.
Qed.

Lemma fetch_items_return loader w j indices :
  heap_dataset (w_heap w) (dl_dataset loader) = Some j ->
  Forall (fun entry => entry_loads (image_directory_path j) entry = true) (entries j) ->
  Forall (fun idx => idx < length (entries j)) indices ->
  exists w' data,
    mapM (fun idx => DetectionDataset.__getitem__ (dl_dataset loader) (Z.of_nat idx))
         indices w = (w', Ok data) /\
    w_heap w' = w_heap w /\ length data = length indices.
Proof.
  intros Hd Hall Hin. revert w Hd.
  induction Hin as [|idx indices Hi _ IH]; intros w Hd; simpl.
  - unfold ret. eauto.
  - destruct (getitem_returns w _ j idx Hd Hall Hi) as (w1 & t & Hrun & Hh).
    rewrite (bind_run _ _ _ _ _ Hrun).
    rewrite <- Hh in Hd. destruct (IH w1 Hd) as (w2 & data & Hrun2 & Hh2 & Hlen).
    rewrite (bind_run _ _ _ _ _ Hrun2). unfold ret.
    exists w2, (t :: data). simpl. repeat split; congruence.
Qed.

Lemma loader_fetch_returns loader w j indices :
  heap_dataset (w_heap w) (dl_dataset loader) = Some j ->
  Forall (fun entry => entry_loads (image_directory_path j) entry = true) (entries j) ->
  indices <> [] ->
  Forall (fun idx => idx < length (entries j)) indices ->
  exists w' b, loader_fetch loader indices w = (w', Ok b) /\ w_heap w' = w_heap w.
Proof.
  intros Hd Hall Hne Hin. unfold loader_fetch.
  destruct (fetch_items_return loader w j indices Hd Hall Hin)
    as (w1 & data & Hrun & Hh & Hlen).
  rewrite (bind_run _ _ _ _ _ Hrun).
  destruct data as [|t data].
  - destruct indices; [contradiction | discriminate].
  - unfold collate_fn, zip_star. simpl. eauto.
Qed.

Lemma insert_at_Forall {A} (P : A -> Prop) i x l :
  P x -> Forall P l -> Forall P (insert_at i x l).
Proof.
  intros Hx Hl. unfold insert_at. apply Forall_app. split.
  - apply Forall_take, Hl.
  - constructor; [exact Hx | apply Forall_drop, Hl].
Qed.

Lemma permute_Forall (P : nat -> Prop) draw k l :
  Forall P l -> Forall P (permute draw k l).
Proof.
  intros Hl. revert k. induction Hl as [|x l Hx _ IH]; intros k; simpl.
  - constructor.
  - apply insert_at_Forall; [exact Hx | apply IH].
Qed.

Lemma batch_sampler_Forall (P : nat -> Prop) bs l :
  Forall P l ->
  forall cur, Forall P cur ->
  Forall (fun batch => batch <> [] /\ Forall P batch) (batch_sampler bs cur l).
Proof.
  induction 1 as [|x l Hx _ IH]; intros cur Hc; simpl.
  - destruct cur; constructor; [| constructor]. split; [discriminate | exact Hc].
  - assert (Forall P (cur ++ [x])) as Hc'.
    { apply Forall_app. split; [exact Hc | constructor; [exact Hx | constructor]]. }
    destruct (length (cur ++ [x]) =? bs)%nat.
    + constructor; [| apply IH; constructor].
      split; [destruct cur; discriminate | exact Hc'].
    + apply IH, Hc'.
Qed.

Lemma loader_sampler_returns loader w j :
  heap_dataset (w_heap w) (dl_dataset loader) = Some j ->
  exists w' sampler,
    loader_sampler loader w = (w', Ok sampler) /\ w_heap w' = w_heap w /\
    Forall (fun idx => idx < length (entries j)) sampler.
Proof.
  intros Hd. unfold loader_sampler.
  rewrite (bind_run _ _ _ _ _
             (DetectionDataset_len_run _ _ _ (loader_ready_entries _ _ _ Hd))).
  assert (Forall (fun idx => idx < length (entries j)) (seq 0 (length (entries j))))
    as Hseq.
  { apply Forall_forall. intros i Hi. apply list_elem_of_In, in_seq in Hi. lia. }
  destruct (dl_shuffle loader).
  - unfold randperm. do 2 eexists. split; [reflexivity |]. simpl.
    split; [reflexivity | apply permute_Forall, Hseq].
  - unfold ret. eauto.
Qed.

Lemma foldM_returns {A St} (body : St -> A -> M St) (P : World -> Prop) (Q : A -> Prop) l :
  (forall s x w, Q x -> P w -> exists w' s', body s x w = (w', Ok s') /\ P w') ->
  Forall Q l ->
  forall s w, P w -> exists w' s', foldM body s l w = (w', Ok s') /\ P w'.
Proof.
  intros Hb Hl. induction Hl as [|x l Hx _ IH]; intros s w Hw; simpl.
  - unfold ret. eauto.
  - destruct (Hb s x w Hx Hw) as (w1 & s1 & Hrun & Hw1).
    rewrite (bind_run _ _ _ _ _ Hrun). apply IH, Hw1.
Qed.

Lemma for_batches_returns {St} loader (s : St) body h w :
  loader_ready h loader = true ->
  w_heap w = h ->
  (forall s b v, w_heap v = h -> exists v' s', body s b v = (v', Ok s') /\ w_heap v' = h) ->
  exists w' s', for_batches loader s body w = (w', Ok s') /\ w_heap w' = h.
Proof.
  intros Hready Hw Hbody.
  apply loader_ready_inv in Hready as (j & Hd & Hbs & Hn & Hall).
  unfold for_batches. rewrite <- Hw in Hd.
  destruct (loader_sampler_returns loader w j Hd) as (w1 & sampler & Hrun & Hh & Hin).
  rewrite (bind_run _ _ _ _ _ Hrun).
  apply (foldM_returns _ (fun v => w_heap v = h)
           (fun batch => batch <> [] /\ Forall (fun idx => idx < length (entries j)) batch)).
  - intros t indices v [Hne Hidx] Hv.
    assert (heap_dataset (w_heap v) (dl_dataset loader) = Some j) as Hdv
      by (rewrite Hv, <- Hw; exact Hd).
    destruct (loader_fetch_returns loader v j indices Hdv Hall Hne Hidx)
      as (v1 & b & Hf & Hh1).
    rewrite (bind_run _ _ _ _ _ Hf). apply Hbody. congruence.
  - apply batch_sampler_Forall; [exact Hin | constructor].
  - congruence.
Qed.

Lemma loader_ready_len h loader : loader_ready h loader = true -> len_of h loader <> 0.
Proof.
  intros Hready. apply loader_ready_inv in Hready as (j & Hd & Hbs & Hn & _).
  unfold len_of, dataset_size. rewrite (loader_ready_entries _ _ _ Hd).
  intros E. apply Nat.div_small_iff in E; lia.
Qed.

Lemma loader_len_ready loader w :
  loader_ready (w_heap w) loader = true ->
  loader_len loader w = (w, Ok (len_of (w_heap w) loader)).
Proof.
  intros Hready. apply loader_ready_inv in Hready as (j & Hd & _).
  apply (loader_len_run _ _ _ (loader_ready_entries _ _ _ Hd)).
Qed.

Lemma truediv_run x n w : n <> 0 -> truediv x n w = (w, Ok (num_div x n)).
Proof.
  intros Hn. unfold truediv. destruct (n =? 0)%nat eqn:E; [| reflexivity].
  apply Nat.eqb_eq in E. contradiction.
Qed.

Lemma train_step_returns train_loader locals b h w :
  loader_ready h train_loader = true ->
  w_heap w = h ->
  exists w' train_loss avg,
    train_step train_loader locals b w = (w', Ok (train_loss, Some avg)) /\ w_heap w' = h.
Proof.
  intros Hready Hw. destruct locals as [train_loss avg0], b as [inputs answers].
  unfold train_step, with_ctx, tokenizer, model.
  repeat rewrite (bind_run _ _ _ _ _ eq_refl).
  match goal with
  | |- context [bind (loader_len _) _ ?v] => set (v0 := v)
  end.
  assert (w_heap v0 = h) as Hv by (subst v0; unfold log; simpl; exact Hw).
  assert (loader_ready (w_heap v0) train_loader = true) as Hr
    by (rewrite Hv; exact Hready).
  rewrite (bind_run _ _ v0 _ _ (loader_len_ready train_loader v0 Hr)).
  assert (len_of (w_heap v0) train_loader <> 0) as Hn
    by (apply loader_ready_len, Hr).
  rewrite (bind_run _ _ v0 _ _ (truediv_run _ _ v0 Hn)).
  simpl. do 3 eexists. split; [reflexivity | exact Hv].
Qed.

Lemma val_step_returns val_loss b h w :
  w_heap w = h ->
  exists w' val_loss', val_step val_loss b w = (w', Ok val_loss') /\ w_heap w' = h.
Proof.
  intros Hw. destruct b as [inputs answers]. unfold val_step, tokenizer, model.
  repeat rewrite (bind_run _ _ _ _ _ eq_refl).
  simpl. do 2 eexists. split; [reflexivity | exact Hw].
Qed.

Lemma with_ctx_run {A} enter leave (body : M A) w w1 a :
  body (fst (log enter w)) = (w1, Ok a) ->
  with_ctx enter leave body w = (fst (log leave w1), Ok a).
Proof. unfold with_ctx. intros ->. reflexivity. Qed.

Lemma loader_ready_batches h loader :
  loader_ready h loader = true -> batches_in h loader <> 0.
Proof.
  intros Hready. pose proof (loader_ready_len _ _ Hready) as Hlen.
  apply loader_ready_inv in Hready as (j & _ & Hbs & _).
  rewrite (batches_in_len_of _ _ Hbs). exact Hlen.
Qed.

Lemma epoch_body_returns train_loader val_loader epochs avg0 epoch h w :
  loader_ready h train_loader = true ->
  loader_ready h val_loader = true ->
  w_heap w = h ->
  exists w' avg,
    epoch_body train_loader val_loader epochs avg0 epoch w = (w', Ok avg) /\
    w_heap w' = h.
Proof.
  intros Ht Hv Hw. unfold epoch_body, tqdm.
  rewrite (bind_run _ _ w _ tt eq_refl).
  destruct (for_batches_returns train_loader (num_zero, avg0) (train_step train_loader)
              h (fst (log EvModelTrain w)) Ht Hw)
    as (w1 & [train_loss avg] & Hrun & Hh1).
  { intros s b v Hv'.
    destruct (train_step_returns train_loader s b h v Ht Hv') as (v' & tl & a & Hs & Hh).
    eauto. }
  rewrite (bind_run _ _ _ _ _ Hrun).
  apply train_loop_ok_inv in Hrun as (_ & _ & _ & _ & _ & _ & _ & _ & Hnz).
  simpl in Hnz. rewrite Hw in Hnz.
  destruct (Hnz (loader_ready_batches _ _ Ht)) as [_ ->]. simpl.
  rewrite (bind_run _ _ w1 _ _ eq_refl).
  rewrite (bind_run _ _ _ _ tt eq_refl).
  rewrite (bind_run _ _ _ _ tt eq_refl).
  match goal with
  | |- context [bind (with_ctx ?en ?le ?body) _ ?v] =>
      set (v0 := v);
      assert (exists v1, body (fst (log en v0)) = (v1, Ok tt) /\ w_heap v1 = h)
        as (v1 & Hbody & Hh2)
  end.
  { destruct (for_batches_returns val_loader num_zero val_step h
                (fst (log EvNoGradEnter v0)) Hv)
      as (w2 & val_loss & Hrun2 & Hh2).
    - subst v0. simpl. exact Hh1.
    - intros s b v Hv'. apply val_step_returns, Hv'.
    - rewrite (bind_run _ _ _ _ _ Hrun2).
      assert (loader_ready (w_heap w2) val_loader = true) as Hr
        by (rewrite Hh2; exact Hv).
      rewrite (bind_run _ _ w2 _ _ (loader_len_ready val_loader w2 Hr)).
      rewrite (bind_run _ _ w2 _ _ (truediv_run _ _ w2 (loader_ready_len _ _ Hr))).
      eexists. split; [reflexivity | exact Hh2]. }
  rewrite (bind_run _ _ _ _ _ (with_ctx_run _ _ _ _ _ _ Hbody)).
  rewrite (bind_run _ _ _ _ tt eq_refl).
  rewrite (bind_run _ _ _ _ tt eq_refl).
  unfold ret. do 2 eexists. split; [reflexivity | exact Hh2].
Qed.

(** With ready loaders [train_model] returns. *)
Lemma train_model_returns train_loader val_loader epochs lr w :
  loader_ready (w_heap w) train_loader = true ->
  loader_ready (w_heap w) val_loader = true ->
  exists w', train_model train_loader val_loader epochs lr w = (w', Ok tt).
Proof.
  intros Ht Hv. unfold train_model.
  rewrite (bind_run _ _ w _ tt eq_refl).
  match goal with
  | |- context [bind (loader_len _) _ ?v] => set (v0 := v)
  end.
  rewrite (bind_run _ _ v0 _ _ (loader_len_ready train_loader v0 Ht)).
  rewrite (bind_run _ _ _ _ tt eq_refl).
  rewrite (bind_run _ _ _ _ tt eq_refl).
  match goal with
  | |- context [bind (foldM ?body ?s0 ?l0) _ ?u0] =>
      destruct (foldM_returns body (fun u => w_heap u = w_heap w) (fun _ => True) l0
                  ltac:(intros s e u _ Hu; apply epoch_body_returns; assumption)
                  ltac:(apply Forall_forall; auto)
                  s0 u0 eq_refl)
        as (w1 & avg & Hrun & _)
  end.
  rewrite (bind_run _ _ _ _ _ Hrun). unfold ret. eauto.
Qed.

(** * Properties of the script *)

(** C6: in every run of [train_model] that returns, the framework calls
    are, in this order: the three set-up calls; then for epochs 1, 2, ...,
    [epochs] in turn, [model.train()], every training batch (tokenize the
    answers, forward pass, backward pass, optimizer step, scheduler step,
    gradient zeroing, all inside the accumulate context), the printed
    training average, [model.eval()], every validation batch (tokenize,
    forward pass) between entering and leaving no-grad, the printed
    validation average, and the checkpoint of the epoch.  The calls of an
    epoch all precede the calls of the next one. *)
Theorem training_loop_order train_loader val_loader epochs lr w w' :
  train_model train_loader val_loader epochs lr w = (w', Ok tt) ->
  let nt := batches_in (w_heap w) train_loader in
  let nv := batches_in (w_heap w) val_loader in
  calls_since w w'
  = [CAdamW; CGetScheduler "linear" 12 (epochs * len_of (w_heap w) train_loader);
     CPrepare]
    ++ concat (map (fun e =>
                      ([CModelTrain]
                       ++ concat (replicate nt
                                    [CAccumulateEnter; CTokenize; CForward; CBackward;
                                     COptimizerStep; CSchedulerStep; CZeroGrad;
                                     CAccumulateExit])
                       ++ [CPrint "Average Training Loss: "])
                      ++ ([CModelEval; CNoGradEnter]
                          ++ concat (replicate nv [CTokenize; CForward])
                          ++ [CPrint "Average Validation Loss: "; CNoGradExit])
                      ++ [CMakedirs (checkpoint_dir e) true;
                          CSaveModel (checkpoint_dir e)])
                   (seq 1 epochs)).
Proof.
  intros H nt nv. apply train_model_ok_calls in H. exact H.
Qed.

(** C1: with ready loaders (positive batch size, datasets not empty, every
    entry loading) [train_model] returns; and in every run of [train_model]
    that returns, the model is saved exactly once per epoch [e] from 1 to
    [epochs], into the directory [output_dir + "/epoch_" + str(e)], which
    [os.makedirs(..., exist_ok=True)] has made just before; the save of
    epoch [e] comes after the training phase and the validation phase of
    that epoch, after the saves of epochs 1 .. e-1 and before those of
    epochs e+1 .. epochs; the [epochs] directories are pairwise different. *)
Theorem checkpoint_per_epoch train_loader val_loader epochs lr w :
  (loader_ready (w_heap w) train_loader = true ->
   loader_ready (w_heap w) val_loader = true ->
   exists w', train_model train_loader val_loader epochs lr w = (w', Ok tt)) /\
  (forall w',
      train_model train_loader val_loader epochs lr w = (w', Ok tt) ->
      let nt := batches_in (w_heap w) train_loader in
      let nv := batches_in (w_heap w) val_loader in
      let calls := calls_since w w' in
      omap saved_dir calls = map checkpoint_dir (seq 1 epochs) /\
      omap made_dir calls = map checkpoint_dir (seq 1 epochs) /\
      length (omap saved_dir calls) = epochs /\
      NoDup (omap saved_dir calls) /\
      forall e, 1 <= e <= epochs ->
        checkpoint_dir e = output_dir +:+ "/epoch_" +:+ str_of_nat e /\
        exists before after,
          calls = before
                  ++ train_phase_calls nt ++ val_phase_calls nv
                  ++ [CMakedirs (checkpoint_dir e) true; CSaveModel (checkpoint_dir e)]
                  ++ after /\
          omap saved_dir before = map checkpoint_dir (seq 1 (e - 1)) /\
          omap saved_dir after = map checkpoint_dir (seq (S e) (epochs - e))).
Proof.
  split; [apply train_model_returns |].
  intros w' H nt nv calls.
  pose proof (train_model_ok_calls _ _ _ _ _ _ H) as Hcalls.
  cbv zeta in Hcalls. fold nt nv calls in Hcalls.
  assert (omap saved_dir calls = map checkpoint_dir (seq 1 epochs)) as Hsaved.
  { rewrite Hcalls. unfold run_calls. rewrite omap_app. simpl.
    apply omap_concat_map_singleton, epoch_calls_saved. }
  split; [exact Hsaved |]. split.
  { rewrite Hcalls. unfold run_calls. rewrite omap_app. simpl.
    apply omap_concat_map_singleton, epoch_calls_made. }
  split; [rewrite Hsaved, length_map, length_seq; reflexivity |].
  split; [rewrite Hsaved; apply checkpoint_dirs_NoDup |].
  intros e He. split; [reflexivity |].
  exists (setup_calls (epochs * len_of (w_heap w) train_loader)
          ++ concat (map (epoch_calls nt nv) (seq 1 (e - 1)))),
         (concat (map (epoch_calls nt nv) (seq (S e) (epochs - e)))).
  split; [| split].
  - rewrite Hcalls. unfold run_calls.
    replace epochs with ((e - 1) + S (epochs - e)) at 2 by lia.
    rewrite seq_app, map_app, concat_app. cbn [seq map concat].
    replace (1 + (e - 1)) with e by lia.
    unfold epoch_calls at 2, checkpoint_calls. rewrite <- !app_assoc. reflexivity.
  - rewrite omap_app. simpl. apply omap_concat_map_singleton, epoch_calls_saved.
  - apply omap_concat_map_singleton, epoch_calls_saved.
Qed.

(** C5: in every run of [train_model] that returns, with a positive batch
    size, the scheduler is created once, with name "linear", 12 warm-up
    steps and [epochs * len(train_loader)] training steps; every training
    batch calls [lr_scheduler.step()] once and no validation batch does, so
    the number of scheduler steps of the run is the configured total. *)
Theorem scheduler_linear_steps train_loader val_loader epochs lr w w' :
  0 < dl_batch_size train_loader ->
  train_model train_loader val_loader epochs lr w = (w', Ok tt) ->
  let total := epochs * len_of (w_heap w) train_loader in
  omap scheduler_config (calls_since w w') = [("linear", 12, total)] /\
  count_if is_scheduler_step train_step_calls = 1 /\
  count_if is_scheduler_step val_step_calls = 0 /\
  count_if is_scheduler_step (calls_since w w')
  = epochs * batches_in (w_heap w) train_loader /\
  count_if is_scheduler_step (calls_since w w') = total.
Proof.
  intros Hbs H total. apply train_model_ok_calls in H. cbv zeta in H.
  assert (count_if is_scheduler_step (calls_since w w')
          = epochs * batches_in (w_heap w) train_loader) as Hcount.
  { rewrite H. unfold run_calls. rewrite count_if_app.
    rewrite (count_if_concat_map _ _ (batches_in (w_heap w) train_loader))
      by (intros e; apply epoch_calls_scheduler_steps).
    rewrite length_seq. reflexivity. }
  split; [| split; [reflexivity | split; [reflexivity | split; [exact Hcount |]]]].
  - rewrite H. unfold run_calls. rewrite omap_app.
    rewrite omap_concat_map_nil by (intros e; apply epoch_calls_no_scheduler).
    reflexivity.
  - rewrite Hcount, batches_in_len_of by exact Hbs. reflexivity.
Qed.

(** C8: for an index below 0 or at least [len(self.entries)],
    [JSONLDataset.__getitem__] raises [IndexError("Index out of range")];
    a negative index is rejected, not counted from the end; no image file
    is opened and nothing else is raised. *)
Theorem getitem_out_of_range w self d idx :
  w_heap w !! self = Some (ObjJSONLDataset d) ->
  (idx < 0 \/ idx >= Z.of_nat (length (entries d)))%Z ->
  let r := JSONLDataset.__getitem__ self idx w in
  snd r = Raise (IndexError "Index out of range") /\
  w_data (fst r) = w_data w /\
  w_raised (fst r) = w_raised w ++ [IndexError "Index out of range"].
Proof.
  intros Hs Hi r. subst r.
  rewrite (JSONLDataset_getitem_out_of_range _ _ _ _ Hs Hi).
  repeat split; reflexivity.
Qed.

(** C3, amended: when every line of the annotation file parses, the
    dataset built from it holds the parsed objects of the lines, one per
    line and in file order, and its length is the number of lines; for an
    index in range whose line parses to an entry with the three keys of
    the data model (a string under 'image', and 'prefix' and 'suffix'),
    [DetectionDataset.__getitem__] opens the one image at
    [os.path.join(image_directory_path, entry['image'])] and, when the
    image opens, returns [(entry['prefix'], entry['suffix'], image)] with
    the image opened there; when the image cannot be opened, the access
    raises instead: the exception of [Image.open], a [FileNotFoundError]
    being replaced by one that names the path. *)
Theorem dataset_one_entry_per_line path dir lines es w :
  file_lines path = Ok lines ->
  Forall2 parses lines es ->
  exists self w1,
    DetectionDataset.__init__ path dir w = (w1, Ok self) /\
    heap_dataset (w_heap w1) self
    = Some {| jsonl_file_path := path; image_directory_path := dir; entries := es |} /\
    length es = length lines /\
    forall w2,
      w_heap w2 = w_heap w1 ->
      DetectionDataset.__len__ self w2 = (w2, Ok (length lines)) /\
      forall idx line entry name prefix suffix,
        (0 <= idx < Z.of_nat (length lines))%Z ->
        lines !! Z.to_nat idx = Some line ->
        parses line entry ->
        entry_fields entry = Some (name, prefix, suffix) ->
        let image_path := os_path_join dir name in
        let r := DetectionDataset.__getitem__ self idx w2 in
        data_since w2 (fst r) = [DImageOpen image_path] /\
        snd r = match image_open image_path with
                | Ok image => Ok (prefix, suffix, image)
                | Raise (FileNotFoundError _) =>
                    Raise (FileNotFoundError
                             ("Image file " +:+ image_path +:+ " not found."))
                | Raise e => Raise e
                end.
Proof.
  intros Hf Hp.
  destruct (DetectionDataset_init_run path dir lines es w Hf Hp)
    as (self & w1 & Hrun & Hd & _).
  exists self, w1. split; [exact Hrun |]. split; [exact Hd |].
  pose proof (Forall2_length _ _ _ Hp) as Hlen.
  split; [symmetry; exact Hlen |].
  intros w2 Hh. rewrite <- Hh in Hd.
  split.
  - rewrite Hlen. apply DetectionDataset_len_run.
    unfold heap_entries. rewrite Hd. reflexivity.
  - intros idx line entry name prefix suffix Hi Hline Hparse Hfld image_path r.
    destruct (Forall2_lookup_l _ _ _ _ _ Hp Hline) as (entry' & He & Hparse').
    unfold parses in *. rewrite Hparse in Hparse'. inversion Hparse'; subst entry'.
    subst r. rewrite Hlen in Hi.
    rewrite (DetectionDataset_getitem_run _ _ _ _ _ _ _ _ Hd Hi He Hfld).
    simpl. fold image_path. unfold data_since.
    destruct (image_open image_path) as [img|e]; [| destruct e]; simpl;
      rewrite drop_app_length; split; reflexivity.
Qed.


Lemma mapM_ok_length {A B} (f : A -> M B) l :
  forall w w' ys, mapM f l w = (w', Ok ys) -> length ys = length l.
Proof.
  induction l as [|x xs IH]; intros w w' ys H; simpl in H.
  - unfold ret in H. inversion H. reflexivity.
  - apply bind_ok_inv in H as (w1 & y & _ & H).
    apply bind_ok_inv in H as (w2 & ys' & H2 & H).
    unfold ret in H. inversion H; subst. simpl. f_equal. apply (IH _ _ _ H2).
Qed.

(** C4: for every batch of (prefix, suffix, image) triples that
    [collate_fn] is given, [collate_fn] hands exactly the prefixes and the
    images of the batch, in batch order, to the processor, moves the
    result to the device and returns it with the suffixes of the batch, in
    the same order and as they are; it makes no tokenizer call.  The
    suffixes are tokenized in the training and validation steps, where the
    labels of the forward pass are the token ids of exactly these
    suffixes.  A batch that [collate_fn] is given has at least one triple:
    its only caller is the loader, every list of indices the batch sampler
    yields has an index, and the samples fetched for a list of indices
    are as many as the indices. *)
Theorem collate_fn_nonempty batch w :
  batch <> [] ->
  let questions := map (fun t => fst (fst t)) batch in
  let answers := map (fun t => snd (fst t)) batch in
  let images := map snd batch in
  let inputs := features_to_device (processor questions images) in
  collate_fn batch w
  = (fst (log_data (DProcessor questions images) w), Ok (inputs, answers)) /\
  w_trace (fst (collate_fn batch w)) = w_trace w /\
  (forall train_loader train_loss avg v v' r,
      train_step train_loader (train_loss, avg) (inputs, answers) v = (v', Ok r) ->
      exists loss,
        since v v'
        = [EvAccumulateEnter;
           EvTokenize answers (tokenizer_input_ids answers);
           EvForward (features_get inputs "input_ids")
                     (features_get inputs "pixel_values")
                     (tensor_to_device (tokenizer_input_ids answers)) loss;
           EvBackward loss; EvOptimizerStep; EvSchedulerStep; EvZeroGrad;
           EvAccumulateExit]) /\
  (forall val_loss v v' r,
      val_step val_loss (inputs, answers) v = (v', Ok r) ->
      exists loss,
        since v v'
        = [EvTokenize answers (tokenizer_input_ids answers);
           EvForward (features_get inputs "input_ids")
                     (features_get inputs "pixel_values")
                     (tensor_to_device (tokenizer_input_ids answers)) loss]) /\
  (forall batch_size sampler,
      Forall (fun indices : list nat => indices <> [])
             (batch_sampler batch_size [] sampler)) /\
  (forall loader indices v v' data,
      indices <> [] ->
      mapM (fun idx => DetectionDataset.__getitem__ (dl_dataset loader) (Z.of_nat idx))
           indices v = (v', Ok data) ->
      data <> []).
Proof.
  intros Hne questions answers images inputs.
  assert (collate_fn batch w
          = (fst (log_data (DProcessor questions images) w), Ok (inputs, answers)))
    as Hrun.
  { destruct batch as [|t batch]; [contradiction |]. reflexivity. }
  split; [exact Hrun |]. split; [rewrite Hrun; reflexivity |].
  split; [| split; [| split]].
  - intros train_loader train_loss avg v v' [tl' avg'] H.
    apply train_step_ok_inv in H as (Ht & _).
    eexists. unfold since. rewrite Ht, drop_app_length. reflexivity.
  - intros val_loss v v' r H.
    apply val_step_ok_inv in H as (Ht & _).
    eexists. unfold since. rewrite Ht, drop_app_length. reflexivity.
  - intros batch_size sampler.
    eapply Forall_impl.
    + apply (batch_sampler_Forall (fun _ => True)); [| constructor].
      apply Forall_forall. auto.
    + intros indices [H _]. exact H.
  - intros loader indices v v' data Hi H E. subst data.
    apply mapM_ok_length in H. destruct indices; [contradiction | discriminate].
Qed.


Lemma DetectionDataset_len_heap self w w' :
  w_heap w = w_heap w' ->
  snd (DetectionDataset.__len__ self w) = snd (DetectionDataset.__len__ self w').
Proof.
  intros E.
  unfold DetectionDataset.__len__, DetectionDataset.self_,
    JSONLDataset.__len__, JSONLDataset.self_, bind, deref.
  rewrite E. destruct (w_heap w' !! self) as [[j|d]|]; simpl; try reflexivity.
  rewrite E. destruct (w_heap w' !! dataset d) as [[j|d']|]; reflexivity.
Qed.

(** C10: [__len__] and [__getitem__] of both dataset classes, and a whole
    run of [train_model], leave every object in the heap as it is; so the
    length of a dataset is the same after the run as before it, and two
    accesses with the same index, at any two moments with the same heap,
    return the same entry, hence the same prefix and suffix. *)
Theorem dataset_immutable :
  (forall self w, w_heap (fst (JSONLDataset.__len__ self w)) = w_heap w) /\
  (forall self idx w, w_heap (fst (JSONLDataset.__getitem__ self idx w)) = w_heap w) /\
  (forall self w, w_heap (fst (DetectionDataset.__len__ self w)) = w_heap w) /\
  (forall self idx w, w_heap (fst (DetectionDataset.__getitem__ self idx w)) = w_heap w) /\
  (forall train_loader val_loader epochs lr w,
      w_heap (fst (train_model train_loader val_loader epochs lr w)) = w_heap w) /\
  (forall train_loader val_loader epochs lr w self,
      let w' := fst (train_model train_loader val_loader epochs lr w) in
      snd (DetectionDataset.__len__ self w') = snd (DetectionDataset.__len__ self w)) /\
  (forall self idx w1 w1' w2 w2' image1 entry1 image2 entry2,
      w_heap w2 = w_heap w1 ->
      JSONLDataset.__getitem__ self idx w1 = (w1', Ok (image1, entry1)) ->
      JSONLDataset.__getitem__ self idx w2 = (w2', Ok (image2, entry2)) ->
      entry1 = entry2) /\
  (forall self idx w1 w1' w2 w2' prefix1 suffix1 image1 prefix2 suffix2 image2,
      w_heap w2 = w_heap w1 ->
      DetectionDataset.__getitem__ self idx w1 = (w1', Ok (prefix1, suffix1, image1)) ->
      DetectionDataset.__getitem__ self idx w2 = (w2', Ok (prefix2, suffix2, image2)) ->
      prefix1 = prefix2 /\ suffix1 = suffix2).
Proof.
  split; [| split; [| split; [| split; [| split; [| split; [| split]]]]]].
  - intros self w. apply (JSONLDataset_len_keeps self w).
  - intros self idx w. apply (JSONLDataset_getitem_keeps self idx w).
  - intros self w. apply (DetectionDataset_len_keeps self w).
  - intros self idx w. apply (DetectionDataset_getitem_keeps self idx w).
  - intros train_loader val_loader epochs lr w.
    apply (train_model_keeps train_loader val_loader epochs lr w).
  - intros train_loader val_loader epochs lr w self w'.
    apply DetectionDataset_len_heap.
    apply (train_model_keeps train_loader val_loader epochs lr w).
  - intros self idx w1 w1' w2 w2' image1 entry1 image2 entry2 Hh H1 H2.
    apply JSONLDataset_getitem_ok_inv in H1 as (d1 & Hd1 & _ & He1).
    apply JSONLDataset_getitem_ok_inv in H2 as (d2 & Hd2 & _ & He2).
    rewrite Hh, Hd1 in Hd2. inversion Hd2; subst. congruence.
  - intros self idx w1 w1' w2 w2' prefix1 suffix1 image1 prefix2 suffix2 image2
      Hh H1 H2.
    apply DetectionDataset_getitem_ok_inv in H1 as (j1 & e1 & Hd1 & _ & He1 & Hp1 & Hs1).
    apply DetectionDataset_getitem_ok_inv in H2 as (j2 & e2 & Hd2 & _ & He2 & Hp2 & Hs2).
    rewrite Hh, Hd1 in Hd2. inversion Hd2; subst. split; congruence.
Qed.

(** * Further properties of the script *)

(** *** Reading an annotation file *)

Lemma parse_lines_ok lines es : parse_lines lines = Ok es -> Forall2 parses lines es.
Proof.
  revert es. induction lines as [|line rest IH]; intros es; simpl.
  - intros H; inversion H; constructor.
  - destruct (json_loads line) as [data|e] eqn:E; [| discriminate].
    destruct (parse_lines rest) as [es'|e]; [| discriminate].
    intros H; inversion H; subst. constructor; [exact E | apply IH; reflexivity].
Qed.

Lemma parse_lines_raise lines e :
  parse_lines lines = Raise e ->
  exists good bad rest es,
    lines = good ++ bad :: rest /\ Forall2 parses good es /\ json_loads bad = Raise e.
Proof.
  induction lines as [|line rest IH]; simpl; [discriminate |].
  destruct (json_loads line) as [data|e'] eqn:E.
  - destruct (parse_lines rest) as [es'|e'] eqn:E'; [discriminate |].
    intros H; inversion H; subst.
    destruct (IH eq_refl) as (good & bad & rest' & es & -> & Hg & Hb).
    exists (line :: good), bad, rest', (data :: es).
    split; [reflexivity | split; [constructor; assumption | exact Hb]].
  - intros H; inversion H; subst.
    exists [], line, rest, []. split; [reflexivity | split; [constructor | exact E]].
Qed.

Lemma JSONLDataset_init_read path dir w :
  JSONLDataset.__init__ path dir w
  = match read_entries path with
    | Ok es => alloc (ObjJSONLDataset {| jsonl_file_path := path;
                                         image_directory_path := dir;
                                         entries := es |}) w
    | Raise e => raise e w
    end.
Proof.
  unfold read_entries. destruct (file_lines path) as [lines|e] eqn:Hf.
  - destruct (parse_lines lines) as [es|e] eqn:Hp.
    + apply (JSONLDataset_init_run _ _ _ _ _ Hf), parse_lines_ok, Hp.
    + apply parse_lines_raise in Hp as (good & bad & rest & es & -> & Hg & Hb).
      apply (JSONLDataset_init_bad _ _ _ _ _ _ _ _ Hf Hg Hb).
  - unfold JSONLDataset.__init__, JSONLDataset._load_entries.
    unfold bind at 1 2. rewrite Hf. reflexivity.
Qed.

Lemma DetectionDataset_init_read path dir w :
  DetectionDataset.__init__ path dir w
  = match read_entries path with
    | Ok es =>
        (ds <- alloc (ObjJSONLDataset {| jsonl_file_path := path;
                                         image_directory_path := dir;
                                         entries := es |}) ;;
         alloc (ObjDetectionDataset {| dataset := ds |})) w
    | Raise e => raise e w
    end.
Proof.
  unfold DetectionDataset.__init__. unfold bind at 1.
  rewrite JSONLDataset_init_read.
  destruct (read_entries path) as [es|e]; reflexivity.
Qed.

(** X1: when one of the two annotation files cannot be read (it cannot
    be opened, or one of its lines does not parse), the script ends with
    the exception of the first file that fails, the training file being
    read first; it has made the three set-up calls (the accelerator, the
    pretrained model, the processor) and no other framework call, opened
    no image and raised nothing else. *)
Theorem script_stops_without_datasets w e :
  first_failure = Some e ->
  let r := main w in
  snd r = Raise e /\
  calls_since w (fst r)
  = [CAccelerator gradient_accumulation_steps;
     CFromPretrained "AutoModelForCausalLM" CHECKPOINT;
     CFromPretrained "AutoProcessor" CHECKPOINT] /\
  w_data (fst r) = w_data w /\
  w_raised (fst r) = w_raised w ++ [e].
Proof.
  intros H r. subst r. unfold main.
  rewrite (bind_run _ _ w _ tt eq_refl).
  rewrite (bind_run _ _ _ _ tt eq_refl).
  rewrite (bind_run _ _ _ _ tt eq_refl).
  match goal with
  | |- context [bind (DetectionDataset.__init__ _ _) _ ?v] => set (v0 := v)
  end.
  assert (calls_since w v0
          = [CAccelerator gradient_accumulation_steps;
             CFromPretrained "AutoModelForCausalLM" CHECKPOINT;
             CFromPretrained "AutoProcessor" CHECKPOINT]) as Hcalls.
  { unfold calls_since, since. subst v0. simpl.
    rewrite <- !app_assoc, drop_app_length. reflexivity. }
  assert (w_data v0 = w_data w) as Hdata by reflexivity.
  assert (w_raised v0 = w_raised w) as Hraised by reflexivity.
  clearbody v0. unfold first_failure in H.
  destruct (read_entries train_labels) as [es|e1] eqn:Et.
  - destruct (read_entries test_labels) as [es'|e2] eqn:Ev; [discriminate |].
    inversion H; subst e2.
    pose proof (DetectionDataset_init_read train_labels img_dir v0) as E1.
    rewrite Et in E1. unfold bind, alloc in E1. simpl in E1.
    rewrite (bind_run _ _ _ _ _ E1).
    match goal with
    | |- context [bind (DetectionDataset.__init__ ?p ?d) _ ?v] =>
        assert (DetectionDataset.__init__ p d v = raise e v) as E2
          by (rewrite DetectionDataset_init_read, Ev; reflexivity)
    end.
    rewrite (bind_run_raise _ _ _ _ _ E2). simpl.
    rewrite Hdata, Hraised. repeat split; try reflexivity. exact Hcalls.
  - inversion H; subst e1.
    assert (DetectionDataset.__init__ train_labels img_dir v0 = raise e v0) as E1
      by (rewrite DetectionDataset_init_read, Et; reflexivity).
    rewrite (bind_run_raise _ _ _ _ _ E1). simpl.
    rewrite Hdata, Hraised. repeat split; try reflexivity. exact Hcalls.
Qed.

(** *** Entries that lack a key, indices out of range *)

(** X2: for an index in range whose entry has no string under ['image'],
    [JSONLDataset.__getitem__] raises before any image is opened:
    [KeyError('image')] when the entry is a dict without that key, a
    [TypeError] when the entry is not a dict or the value is not a string;
    nothing else is raised, and [DetectionDataset.__getitem__] ends the
    same way. *)
Theorem getitem_entry_without_image w self d idx entry :
  w_heap w !! self = Some (ObjJSONLDataset d) ->
  (0 <= idx < Z.of_nat (length (entries d)))%Z ->
  entries d !! Z.to_nat idx = Some entry ->
  (forall name, subscript entry "image" <> Ok (JStr name)) ->
  exists e,
    match entry with
    | JDict kvs =>
        match assoc "image" kvs with
        | None => e = KeyError "image"
        | Some _ => exists msg, e = TypeError msg
        end
    | _ => exists msg, e = TypeError msg
    end /\
    (let r := JSONLDataset.__getitem__ self idx w in
     snd r = Raise e /\ w_data (fst r) = w_data w /\
     w_raised (fst r) = w_raised w ++ [e]) /\
    (forall self',
        w_heap w !! self' = Some (ObjDetectionDataset {| dataset := self |}) ->
        let r := DetectionDataset.__getitem__ self' idx w in
        snd r = Raise e /\ w_data (fst r) = w_data w /\
        w_raised (fst r) = w_raised w ++ [e]).
Proof.
  intros Hs Hi He Hn.
  assert (exists e,
             match entry with
             | JDict kvs =>
                 match assoc "image" kvs with
                 | None => e = KeyError "image"
                 | Some _ => exists msg, e = TypeError msg
                 end
             | _ => exists msg, e = TypeError msg
             end /\
             JSONLDataset.__getitem__ self idx w = raise e w) as (e & Hshape & Hrun).
  { unfold JSONLDataset.__getitem__.
    rewrite (bind_run _ _ _ _ _ (JSONLDataset_self_run _ _ _ Hs)).
    destruct (idx <? 0)%Z eqn:E1; [apply Z.ltb_lt in E1; lia |].
    destruct (idx >=? Z.of_nat (length (entries d)))%Z eqn:E2;
      [apply Z.geb_le in E2; lia |].
    simpl.
    rewrite (bind_run _ _ _ _ _ (list_getitem_run _ _ _ _ (proj1 Hi) He)).
    destruct entry as [| b | z | f | s | items | kvs]; simpl;
      try (eexists; split; [eexists; reflexivity | reflexivity]).
    unfold subscript in Hn. simpl.
    destruct (assoc "image" kvs) as [v|]; simpl.
    - destruct v as [| b | z | f | s | items | kvs'];
        try (eexists; split; [eexists; reflexivity | reflexivity]).
      exfalso. apply (Hn s). reflexivity.
    - eexists. split; reflexivity. }
  exists e. split; [exact Hshape |]. split.
  - rewrite Hrun. repeat split; reflexivity.
  - intros self' Hs'. unfold DetectionDataset.__getitem__.
    rewrite (bind_run _ _ _ _ _ (DetectionDataset_self_run _ _ _ Hs')).
    simpl. rewrite (bind_run_raise _ _ _ _ _ Hrun). repeat split; reflexivity.
Qed.

(** X3: [DetectionDataset.__getitem__] reads ['prefix'] and ['suffix']
    only after the image has been opened: for an index in range whose
    entry names an image that opens but lacks one of the two keys, the
    image is opened and then [KeyError] is raised, for ['prefix'] when
    that key is missing and for ['suffix'] otherwise; nothing else is
    raised. *)
Theorem detection_getitem_missing_key w self j idx kvs name img :
  heap_dataset (w_heap w) self = Some j ->
  (0 <= idx < Z.of_nat (length (entries j)))%Z ->
  entries j !! Z.to_nat idx = Some (JDict kvs) ->
  assoc "image" kvs = Some (JStr name) ->
  image_open (os_path_join (image_directory_path j) name) = Ok img ->
  assoc "prefix" kvs = None \/ assoc "suffix" kvs = None ->
  let key := match assoc "prefix" kvs with None => "prefix" | Some _ => "suffix" end in
  let r := DetectionDataset.__getitem__ self idx w in
  snd r = Raise (KeyError key) /\
  data_since w (fst r) = [DImageOpen (os_path_join (image_directory_path j) name)] /\
  w_raised (fst r) = w_raised w ++ [KeyError key].
Proof.
  intros Hd Hi He Hn Hopen Hmiss key r.
  assert (DetectionDataset.__getitem__ self idx w
          = raise (KeyError key)
              (fst (log_data (DImageOpen (os_path_join (image_directory_path j) name)) w)))
    as Hrun.
  { apply heap_dataset_inv in Hd as (d & H1 & H2).
    unfold DetectionDataset.__getitem__.
    rewrite (bind_run _ _ _ _ _ (DetectionDataset_self_run _ _ _ H1)).
    unfold bind at 1.
    rewrite (JSONLDataset_getitem_run _ _ _ _ _ name H2 Hi He)
      by (simpl; rewrite Hn; reflexivity).
    rewrite Hopen. unfold bind, subscript. subst key.
    destruct (assoc "prefix" kvs) as [p|]; simpl; [| reflexivity].
    destruct Hmiss as [Hm|Hm]; [discriminate |]. rewrite Hm. reflexivity. }
  subst r. rewrite Hrun. unfold data_since. simpl.
  rewrite drop_app_length. repeat split; reflexivity.
Qed.

(** X4: over a dataset all of whose entries load, [len] is the number of
    entries and [DetectionDataset.__getitem__] returns for exactly the
    indices 0 .. len-1; for any other index, the negative ones included,
    it raises [IndexError("Index out of range")] without opening an
    image. *)
Theorem detection_getitem_domain w self j idx :
  heap_dataset (w_heap w) self = Some j ->
  Forall (fun entry => entry_loads (image_directory_path j) entry = true) (entries j) ->
  let r := DetectionDataset.__getitem__ self idx w in
  DetectionDataset.__len__ self w = (w, Ok (length (entries j))) /\
  ((0 <= idx < Z.of_nat (length (entries j)))%Z ->
   exists t, snd r = Ok t) /\
  (~ (0 <= idx < Z.of_nat (length (entries j)))%Z ->
   snd r = Raise (IndexError "Index out of range") /\
   w_data (fst r) = w_data w /\
   w_raised (fst r) = w_raised w ++ [IndexError "Index out of range"]).
Proof.
  intros Hd Hall r. subst r. split; [| split].
  - apply DetectionDataset_len_run. unfold heap_entries. rewrite Hd. reflexivity.
  - intros Hi.
    destruct (getitem_returns w self j (Z.to_nat idx) Hd Hall ltac:(lia))
      as (w' & t & Hrun & _).
    rewrite Z2Nat.id in Hrun by lia. rewrite Hrun. eauto.
  - intros Hi. apply heap_dataset_inv in Hd as (d & H1 & H2).
    unfold DetectionDataset.__getitem__.
    rewrite (bind_run _ _ _ _ _ (DetectionDataset_self_run _ _ _ H1)).
    assert (idx < 0 \/ idx >= Z.of_nat (length (entries j)))%Z as Hout by lia.
    rewrite (bind_run_raise _ _ _ _ _
               (JSONLDataset_getitem_out_of_range _ _ _ _ H2 Hout)).
    repeat split; reflexivity.
Qed.

(** *** No epoch at all *)

(** X5: with [epochs = 0], [train_model] over a training loader that has
    a dataset returns after its three set-up calls, the scheduler being
    configured for 0 training steps: no batch is fetched from either
    loader (the datasets may be empty), no image is opened, nothing is
    printed or saved and nothing is raised. *)
Theorem train_model_zero_epochs train_loader val_loader lr w es :
  heap_entries (w_heap w) (dl_dataset train_loader) = Some es ->
  exists w',
    train_model train_loader val_loader 0 lr w = (w', Ok tt) /\
    since w w' = [EvAdamW lr; EvGetScheduler "linear" 12 0; EvPrepare] /\
    w_data w' = w_data w /\ w_raised w' = w_raised w /\ w_rng w' = w_rng w.
Proof.
  intros H. unfold train_model.
  rewrite (bind_run _ _ w _ tt eq_refl).
  match goal with |- context [bind (loader_len _) _ ?v] => set (v0 := v) end.
  rewrite (bind_run _ _ v0 _ _ (loader_len_run train_loader v0 es H)).
  eexists. split; [reflexivity |]. unfold since. simpl.
  rewrite <- !app_assoc, drop_app_length. repeat split; reflexivity.
Qed.

(** *** What a run appends to the trace, whatever its outcome *)

Section Appends.
Variable P : list event -> Prop.
Hypothesis P_nil : P [].
Hypothesis P_app : forall a b, P a -> P b -> P (a ++ b).

Lemma appends_preorder : PreOrder (appends P).
Proof.
  split.
  - intros w. exists []. rewrite app_nil_r. auto.
  - intros a b c (e1 & H1 & P1) (e2 & H2 & P2). exists (e1 ++ e2).
    rewrite H2, H1, app_assoc. auto.
Qed.

Lemma appends_same_calls w w' : same_calls w w' -> appends P w w'.
Proof. intros [_ Ht]. exists []. rewrite app_nil_r. auto. Qed.

Lemma appends_of_calls {A} (m : M A) : keeps same_calls m -> keeps (appends P) m.
Proof. apply keeps_weaken, appends_same_calls. Qed.

Lemma appends_log ev : P [ev] -> keeps (appends P) (log ev).
Proof. intros H w. exists [ev]. auto. Qed.

Lemma appends_with_ctx (Q : list event -> Prop) {A} enter leave (body : M A) :
  (forall evs, Q evs -> P ([enter] ++ evs ++ [leave])) ->
  keeps (appends Q) body -> keeps (appends P) (with_ctx enter leave body).
Proof.
  intros HQ Hb w. unfold with_ctx.
  specialize (Hb (fst (log enter w))).
  destruct (body (fst (log enter w))) as [w1 r]. simpl in *.
  destruct Hb as (evs & Ht & Hevs). exists ([enter] ++ evs ++ [leave]).
  split; [| apply HQ, Hevs].
  rewrite Ht. simpl. rewrite <- !app_assoc. reflexivity.
Qed.

End Appends.

Lemma truediv_calls x n : keeps same_calls (truediv x n).
Proof. unfold truediv. repeat keeps_step. Qed.

Lemma load_local_calls var v : keeps same_calls (load_local var v).
Proof. unfold load_local. repeat keeps_step. Qed.


Lemma where_after_app c calls1 calls2 :
  where_after c (calls1 ++ calls2)
  = match where_after c calls1 with
    | Some c' => where_after c' calls2
    | None => None
    end.
Proof.
  revert c. induction calls1 as [|call rest IH]; intros c; simpl; [reflexivity |].
  destruct (where_next c call); [apply IH | reflexivity].
Qed.

Lemma stays_app c a b : stays c a -> stays c b -> stays c (a ++ b).
Proof.
  unfold stays. intros Ha Hb. rewrite map_app, where_after_app, Ha. exact Hb.
Qed.


(** A family of properties of the events appended, one for every place
    where calls are made: it holds of no event, of two runs of events one
    after the other, of a call made at its place that is not a checkpoint
    call, and of the events of a context entered and left from outside. *)
Section Places.
Variable P : Where -> list event -> Prop.
Hypothesis P_nil : forall c, P c [].
Hypothesis P_app : forall c a b, P c a -> P c b -> P c (a ++ b).
Hypothesis P_call : forall c ev,
  where_next c (call_of ev) = Some c -> is_checkpoint_call (call_of ev) = false ->
  P c [ev].
Hypothesis P_accumulate : forall evs,
  P InAccumulate evs -> P Outside ([EvAccumulateEnter] ++ evs ++ [EvAccumulateExit]).
Hypothesis P_no_grad : forall evs,
  P InNoGrad evs -> P Outside ([EvNoGradEnter] ++ evs ++ [EvNoGradExit]).

#[local] Instance places_preorder c : PreOrder (appends (P c)).
Proof. apply appends_preorder; [apply P_nil | apply P_app]. Qed.

Lemma places_calls c {A} (m : M A) : keeps same_calls m -> keeps (appends (P c)) m.
Proof. apply appends_of_calls, P_nil. Qed.

Lemma places_log c ev :
  where_next c (call_of ev) = Some c -> is_checkpoint_call (call_of ev) = false ->
  keeps (appends (P c)) (log ev).
Proof. intros H1 H2. apply appends_log, P_call; assumption. Qed.

Lemma for_batches_places c {St} loader (s : St) body :
  (forall s b, keeps (appends (P c)) (body s b)) ->
  keeps (appends (P c)) (for_batches loader s body).
Proof.
  intros Hb. unfold for_batches.
  keeps_step; [apply places_calls, loader_sampler_keeps |].
  keeps_step. keeps_step; [apply places_calls, loader_fetch_keeps | apply Hb].
Qed.

Lemma tokenizer_places c text : c <> Outside -> keeps (appends (P c)) (tokenizer text).
Proof.
  intros Hc. unfold tokenizer.
  keeps_step; [| keeps_step].
  apply places_log; [destruct c; [contradiction | reflexivity | reflexivity] | reflexivity].
Qed.

Lemma model_places c input_ids pixel_values labels :
  c <> Outside -> keeps (appends (P c)) (model input_ids pixel_values labels).
Proof.
  intros Hc. unfold model.
  keeps_step; [apply places_calls, same_calls_get_trace |].
  keeps_step; [| keeps_step].
  apply places_log; [destruct c; [contradiction | reflexivity | reflexivity] | reflexivity].
Qed.

Lemma train_step_places train_loader locals b :
  keeps (appends (P Outside)) (train_step train_loader locals b).
Proof.
  destruct locals as [train_loss avg], b as [inputs answers]. unfold train_step.
  apply (appends_with_ctx _ (P InAccumulate)); [apply P_accumulate |].
  keeps_step; [apply tokenizer_places; discriminate |].
  keeps_step; [apply model_places; discriminate |].
  do 4 (keeps_step; [apply places_log; reflexivity |]).
  keeps_step; [apply places_calls, loader_len_keeps |].
  keeps_step; [apply places_calls, truediv_calls | keeps_step].
Qed.

Lemma val_step_places val_loss b : keeps (appends (P InNoGrad)) (val_step val_loss b).
Proof.
  destruct b as [inputs answers]. unfold val_step.
  keeps_step; [apply tokenizer_places; discriminate |].
  keeps_step; [apply model_places; discriminate | keeps_step].
Qed.

(** The validation phase of an epoch. *)
Lemma validation_places val_loader desc :
  keeps (appends (P Outside))
    (with_ctx EvNoGradEnter EvNoGradExit
       (val_loss <- for_batches (tqdm val_loader desc) num_zero val_step ;;
        n <- loader_len val_loader ;;
        avg_val_loss <- truediv val_loss n ;;
        log (EvPrint "Average Validation Loss: " avg_val_loss))).
Proof.
  apply (appends_with_ctx _ (P InNoGrad)); [apply P_no_grad |].
  keeps_step; [apply for_batches_places, val_step_places |].
  keeps_step; [apply places_calls, loader_len_keeps |].
  keeps_step; [apply places_calls, truediv_calls |].
  apply places_log; reflexivity.
Qed.


Hypothesis P_checkpoint : forall ev,
  is_checkpoint_call (call_of ev) = true -> P Outside [ev].

Lemma epoch_body_places train_loader val_loader epochs avg epoch :
  keeps (appends (P Outside)) (epoch_body train_loader val_loader epochs avg epoch).
Proof.
  unfold epoch_body.
  keeps_step; [apply places_log; reflexivity |].
  keeps_step; [apply for_batches_places, train_step_places |].
  keeps_step.
  keeps_step; [apply places_calls, load_local_calls |].
  keeps_step; [apply places_log; reflexivity |].
  keeps_step; [apply places_log; reflexivity |].
  keeps_step; [apply validation_places |].
  keeps_step; [apply appends_log, P_checkpoint; reflexivity |].
  keeps_step; [apply appends_log, P_checkpoint; reflexivity | keeps_step].
Qed.

Lemma train_model_places train_loader val_loader epochs lr :
  keeps (appends (P Outside)) (train_model train_loader val_loader epochs lr).
Proof.
  unfold train_model.
  keeps_step; [apply places_log; reflexivity |].
  keeps_step; [apply places_calls, loader_len_keeps |].
  keeps_step; [apply places_log; reflexivity |].
  keeps_step; [apply places_log; reflexivity |].
  keeps_step; [| keeps_step].
  keeps_step. apply epoch_body_places.
Qed.

End Places.

(** *** Checkpoints of a run that may fail *)





(** *** Every call at its place *)

(** X7: in every run of [train_model], whether it returns or raises,
    every framework call is made at its place: the backward pass,
    [optimizer.step()], [lr_scheduler.step()] and [optimizer.zero_grad()]
    only inside [accelerator.accumulate(model)]; tokenizing and the
    forward pass only inside [accumulate] or inside [torch.no_grad()];
    the set-up calls, [model.train()], [model.eval()], [os.makedirs] and
    [save_model] only outside both; no print inside [accumulate]; a
    context is entered only from outside (the two are never nested) and
    left only from inside; and at the end of the run, also of one ended
    by an exception, every context entered has been left. *)
Theorem calls_made_at_their_place train_loader val_loader epochs lr w :
  where_after Outside
    (calls_since w (fst (train_model train_loader val_loader epochs lr w)))
  = Some Outside.
Proof.
  destruct (train_model_places stays) with
    (train_loader := train_loader) (val_loader := val_loader) (epochs := epochs)
    (lr := lr) (w := w) as (evs & Ht & Hevs).
  - reflexivity.
  - apply stays_app.
  - intros c ev H _. unfold stays. simpl. rewrite H. reflexivity.
  - intros evs H. unfold stays in *. simpl. rewrite map_app, where_after_app, H.
    reflexivity.
  - intros evs H. unfold stays in *. simpl. rewrite map_app, where_after_app, H.
    reflexivity.
  - intros ev H. unfold stays. simpl. destruct (call_of ev); try discriminate; reflexivity.
  - unfold calls_since, since. rewrite Ht, drop_app_length. exact Hevs.
Qed.

(** *** The batch of a list of indices *)

Lemma sample_at_run w self j idx path t :
  heap_dataset (w_heap w) self = Some j ->
  sample_at j idx = Some (path, t) ->
  DetectionDataset.__getitem__ self (Z.of_nat idx) w
  = (fst (log_data (DImageOpen path) w), Ok t).
Proof.
  intros Hd Hs. unfold sample_at in Hs.
  destruct (entries j !! idx) as [entry|] eqn:He; [| discriminate].
  unfold sample_of in Hs.
  destruct (entry_fields entry) as [[[name prefix] suffix]|] eqn:Hfld; [| discriminate].
  destruct (image_open (os_path_join (image_directory_path j) name)) as [img|e] eqn:Hopen;
    [| discriminate].
  inversion Hs; subst path t.
  pose proof (lookup_lt_Some _ _ _ He) as Hlt.
  assert (0 <= Z.of_nat idx < Z.of_nat (length (entries j)))%Z as Hz by lia.
  rewrite <- (Nat2Z.id idx) in He.
  rewrite (DetectionDataset_getitem_run _ _ _ _ _ _ _ _ Hd Hz He Hfld), Hopen.
  reflexivity.
Qed.

Lemma fetch_samples loader j indices samples :
  Forall2 (fun idx s => sample_at j idx = Some s) indices samples ->
  forall w,
    heap_dataset (w_heap w) (dl_dataset loader) = Some j ->
    exists w',
      mapM (fun idx => DetectionDataset.__getitem__ (dl_dataset loader) (Z.of_nat idx))
           indices w = (w', Ok (map snd samples)) /\
      w_data w' = w_data w ++ map (fun s => DImageOpen (fst s)) samples /\
      w_heap w' = w_heap w /\ w_trace w' = w_trace w /\ w_raised w' = w_raised w.
Proof.
  induction 1 as [|idx [path t] indices samples Hs _ IH]; intros w Hd; simpl.
  - exists w. rewrite app_nil_r. auto.
  - rewrite (bind_run _ _ _ _ _ (sample_at_run _ _ _ _ _ _ Hd Hs)).
    destruct (IH (fst (log_data (DImageOpen path) w)) Hd)
      as (w' & Hrun & Hdata & Hh & Ht & Hr).
    rewrite (bind_run _ _ _ _ _ Hrun). exists w'. split; [reflexivity |].
    rewrite Hdata, Hh, Ht, Hr. simpl. rewrite <- app_assoc. auto.
Qed.

(** X8: the batch the loader makes of a non-empty list of indices whose
    entries load: the images of the entries are opened one by one, in the
    order of the indices, then the processor is called once, with the
    prefixes and the images of these entries in that order, and the batch
    is the processed input together with the suffixes of the same entries
    in the same order; so the i-th prefix, the i-th image and the i-th
    answer of a batch come from one entry.  No framework call is made and
    nothing is raised. *)
Theorem batch_is_aligned loader w j indices samples :
  heap_dataset (w_heap w) (dl_dataset loader) = Some j ->
  indices <> [] ->
  Forall2 (fun idx s => sample_at j idx = Some s) indices samples ->
  let batch := map snd samples in
  let questions := map (fun t => fst (fst t)) batch in
  let answers := map (fun t => snd (fst t)) batch in
  let images := map snd batch in
  let r := loader_fetch loader indices w in
  snd r = Ok (features_to_device (processor questions images), answers) /\
  data_since w (fst r)
  = map (fun s => DImageOpen (fst s)) samples ++ [DProcessor questions images] /\
  w_trace (fst r) = w_trace w /\ w_raised (fst r) = w_raised w.
Proof.
  intros Hd Hne Hs batch questions answers images r.
  destruct (fetch_samples loader j indices samples Hs w Hd)
    as (w' & Hrun & Hdata & _ & Ht & Hr).
  subst r. unfold loader_fetch. rewrite (bind_run _ _ _ _ _ Hrun).
  fold batch. unfold collate_fn, zip_star.
  destruct batch as [|t rest] eqn:Hb.
  - destruct samples; [| discriminate]. inversion Hs; subst. contradiction.
  - rewrite <- Hb. subst questions answers images. rewrite <- Hb. simpl.
    unfold data_since. simpl. rewrite Hdata, <- app_assoc, drop_app_length. auto.
Qed.

(** *** Building the datasets and the loaders *)

Lemma heap_dataset_mono (h h' : gmap loc obj) self j :
  h ⊆ h' -> heap_dataset h self = Some j -> heap_dataset h' self = Some j.
Proof.
  intros Hsub H. apply heap_dataset_inv in H as (d & H1 & H2).
  unfold heap_dataset.
  rewrite (lookup_weaken _ _ _ _ H1 Hsub), (lookup_weaken _ _ _ _ H2 Hsub).
  reflexivity.
Qed.

Lemma alloc_extends o w : w_heap w ⊆ w_heap (fst (alloc o w)).
Proof. simpl. apply insert_subseteq, not_elem_of_dom, is_fresh. Qed.

(** Building a dataset from a file that can be read: the new object holds
    the entries of the file, and every object there was is as it was. *)
Lemma DetectionDataset_init_ok path dir es w :
  read_entries path = Ok es ->
  exists self w1,
    DetectionDataset.__init__ path dir w = (w1, Ok self) /\
    heap_dataset (w_heap w1) self
    = Some {| jsonl_file_path := path; image_directory_path := dir; entries := es |} /\
    w_heap w ⊆ w_heap w1 /\
    w_trace w1 = w_trace w /\ w_raised w1 = w_raised w /\ w_data w1 = w_data w.
Proof.
  intros Hr. pose proof (DetectionDataset_init_read path dir w) as Hread.
  rewrite Hr in Hread.
  unfold read_entries in Hr. destruct (file_lines path) as [lines|e] eqn:Hf; [| discriminate].
  destruct (DetectionDataset_init_run path dir lines es w Hf (parse_lines_ok _ _ Hr))
    as (self & w1 & Hrun & Hd & Ht & Hrs & Hdt).
  exists self, w1. repeat split; auto.
  rewrite Hrun in Hread. unfold bind in Hread.
  set (o := ObjJSONLDataset _) in Hread.
  pose proof (alloc_extends o w) as H1.
  destruct (alloc o w) as [v [l|e]] eqn:Ea; [| discriminate].
  simpl in H1.
  pose proof (alloc_extends (ObjDetectionDataset {| dataset := l |}) v) as H2.
  rewrite <- Hread in H2. simpl in H2. etransitivity; eassumption.
Qed.

Lemma loader_ready_of h loader j :
  heap_dataset h (dl_dataset loader) = Some j ->
  dl_batch_size loader <> 0 -> entries j <> [] ->
  forallb (entry_loads (image_directory_path j)) (entries j) = true ->
  loader_ready h loader = true.
Proof.
  intros Hd Hbs Hne Hall. unfold loader_ready. rewrite Hd, Hall, andb_true_r.
  apply andb_true_intro. split; apply Nat.ltb_lt; [lia |].
  destruct (entries j); [contradiction | simpl; lia].
Qed.

(** *** What a run that returns has loaded *)

Lemma insert_at_Permutation {A} i (x : A) l : insert_at i x l ≡ₚ x :: l.
Proof.
  unfold insert_at. rewrite <- Permutation_middle, take_drop. reflexivity.
Qed.

Lemma permute_Permutation draw k l : permute draw k l ≡ₚ l.
Proof.
  revert k. induction l as [|x l IH]; intros k; simpl; [reflexivity |].
  rewrite insert_at_Permutation, IH. reflexivity.
Qed.

(** The batches of a sampler, one after the other, are the sampler. *)
Lemma batch_sampler_concat bs (l cur : list nat) :
  concat (batch_sampler bs cur l) = cur ++ l.
Proof.
  revert cur. induction l as [|x l IH]; intros cur; simpl.
  - destruct cur; simpl; rewrite ?app_nil_r; reflexivity.
  - destruct (length (cur ++ [x]) =? bs)%nat; simpl.
    + rewrite IH, <- app_assoc. reflexivity.
    + rewrite IH, <- app_assoc. reflexivity.
Qed.

Lemma loader_sampler_ok_all loader w w' sampler :
  loader_sampler loader w = (w', Ok sampler) ->
  sampler ≡ₚ seq 0 (dataset_size (w_heap w) (dl_dataset loader)).
Proof.
  unfold loader_sampler. intros H.
  apply bind_ok_inv in H as (w1 & k & H1 & H2).
  apply DetectionDataset_len_ok_inv in H1 as (-> & -> & _).
  destruct (dl_shuffle loader).
  - unfold randperm in H2. inversion H2; subst. apply permute_Permutation.
  - unfold ret in H2. inversion H2; subst. reflexivity.
Qed.

(** An access that returns has read an entry that loads. *)
Lemma JSONLDataset_getitem_ok_loads self idx w w' img entry :
  JSONLDataset.__getitem__ self idx w = (w', Ok (img, entry)) ->
  exists d name,
    w_heap w !! self = Some (ObjJSONLDataset d) /\
    (0 <= idx)%Z /\ entries d !! Z.to_nat idx = Some entry /\
    subscript entry "image" = Ok (JStr name) /\
    image_open (os_path_join (image_directory_path d) name) = Ok img.
Proof.
  intros H. pose proof H as H0.
  apply JSONLDataset_getitem_ok_inv in H0 as (d & Hd & Hi & He).
  destruct (subscript entry "image") as [v|e] eqn:Hn.
  - destruct v as [| b | z | f | name | items | kvs];
      try (exfalso; revert H; unfold JSONLDataset.__getitem__;
           rewrite (bind_run _ _ _ _ _ (JSONLDataset_self_run _ _ _ Hd));
           destruct (idx <? 0)%Z eqn:E1; [apply Z.ltb_lt in E1; lia |];
           destruct (idx >=? Z.of_nat (length (entries d)))%Z eqn:E2;
             [apply Z.geb_le in E2; lia |];
           simpl;
           rewrite (bind_run _ _ _ _ _ (list_getitem_run _ _ _ _ (proj1 Hi) He));
           rewrite Hn; discriminate).
    rewrite (JSONLDataset_getitem_run _ _ _ _ _ _ Hd Hi He Hn) in H.
    exists d, name. repeat split; auto; try lia.
    destruct (image_open (os_path_join (image_directory_path d) name)) as [img'|e];
      [inversion H; reflexivity | destruct e; discriminate].
  - exfalso. revert H. unfold JSONLDataset.__getitem__.
    rewrite (bind_run _ _ _ _ _ (JSONLDataset_self_run _ _ _ Hd)).
    destruct (idx <? 0)%Z eqn:E1; [apply Z.ltb_lt in E1; lia |].
    destruct (idx >=? Z.of_nat (length (entries d)))%Z eqn:E2;
      [apply Z.geb_le in E2; lia |].
    simpl.
    rewrite (bind_run _ _ _ _ _ (list_getitem_run _ _ _ _ (proj1 Hi) He)).
    rewrite Hn. discriminate.
Qed.

Lemma DetectionDataset_getitem_ok_loads self idx w w' t :
  DetectionDataset.__getitem__ self (Z.of_nat idx) w = (w', Ok t) ->
  exists j entry,
    heap_dataset (w_heap w) self = Some j /\ entries j !! idx = Some entry /\
    entry_loads (image_directory_path j) entry = true.
Proof.
  unfold DetectionDataset.__getitem__. intros H.
  apply bind_ok_inv in H as (w1 & d & H1 & H).
  apply DetectionDataset_self_ok_inv in H1 as [-> H1].
  apply bind_ok_inv in H as (w2 & [img entry] & H2 & H).
  apply JSONLDataset_getitem_ok_loads in H2 as (j & name & Hj & _ & He & Hn & Hopen).
  apply bind_ok_inv in H as (w3 & p & H3 & H).
  apply bind_ok_inv in H as (w4 & s & H4 & H).
  apply lift_ok_inv in H3 as [H3 ->]. apply lift_ok_inv in H4 as [H4 ->].
  rewrite Nat2Z.id in He.
  exists j, entry. unfold heap_dataset. rewrite H1, Hj.
  repeat split; auto.
  unfold entry_loads, entry_fields. rewrite Hn, H3, H4, Hopen. reflexivity.
Qed.

Lemma mapM_getitem_ok_loads self j indices :
  forall w w' data,
    heap_dataset (w_heap w) self = Some j ->
    mapM (fun idx => DetectionDataset.__getitem__ self (Z.of_nat idx)) indices w
    = (w', Ok data) ->
    Forall (fun idx => exists entry,
                entries j !! idx = Some entry /\
                entry_loads (image_directory_path j) entry = true) indices.
Proof.
  induction indices as [|idx indices IH]; intros w w' data Hd H; [constructor |].
  simpl in H. apply bind_ok_inv in H as (w1 & t & H1 & H).
  apply bind_ok_inv in H as (w2 & ts & H2 & _).
  pose proof (DetectionDataset_getitem_keeps self (Z.of_nat idx) w) as [Hh _].
  rewrite H1 in Hh. simpl in Hh.
  apply DetectionDataset_getitem_ok_loads in H1 as (j' & entry & Hd' & He & Hl).
  rewrite Hd in Hd'. inversion Hd'; subst j'.
  constructor; [eauto |].
  apply (IH w1 w2 ts); [rewrite Hh; exact Hd | exact H2].
Qed.

(** A pass over a loader that runs to its end has loaded every entry of
    the dataset of the loader. *)
Lemma for_batches_ok_loads {St} loader (s : St) body w w' s' j :
  (forall s b, keeps same_heap (body s b)) ->
  heap_dataset (w_heap w) (dl_dataset loader) = Some j ->
  for_batches loader s body w = (w', Ok s') ->
  forallb (entry_loads (image_directory_path j)) (entries j) = true.
Proof.
  intros Hbody Hd H. unfold for_batches in H.
  apply bind_ok_inv in H as (w1 & sampler & Hs & H).
  pose proof (loader_sampler_ok_all _ _ _ _ Hs) as Hperm.
  apply loader_sampler_ok_inv in Hs as [[Hh _] _].
  pose (Q := fun idx : nat =>
               exists entry, entries j !! idx = Some entry /\
                             entry_loads (image_directory_path j) entry = true).
  set (batches := batch_sampler (dl_batch_size loader) [] sampler) in H.
  assert (Forall (Forall Q) batches /\ w_heap w' = w_heap w) as [Hall _].
  { rewrite <- (firstn_all batches).
    revert H.
    apply (foldM_ok_inv _ (fun k _ v => Forall (Forall Q) (firstn k batches)
                                        /\ w_heap v = w_heap w)).
    - intros k indices t v t' v' Hk [Hi Hv] Hb.
      apply bind_ok_inv in Hb as (v1 & b & Hf & Hb).
      pose proof (loader_fetch_keeps loader indices v) as [Hh1 _].
      rewrite Hf in Hh1. simpl in Hh1.
      pose proof (Hbody t b v1) as Hh2. rewrite Hb in Hh2.
      unfold same_heap in Hh2. simpl in Hh2.
      split; [| congruence].
      change (firstn (S k) batches) with (take (S k) batches).
      rewrite (take_S_r _ _ _ Hk). apply Forall_app. split; [exact Hi |].
      constructor; [| constructor].
      unfold loader_fetch in Hf. apply bind_ok_inv in Hf as (v2 & data & Hm & _).
      apply (mapM_getitem_ok_loads _ j) in Hm; [exact Hm |].
      rewrite Hv. exact Hd.
    - split; [constructor | exact Hh]. }
  assert (Forall Q sampler) as Hsampler.
  { rewrite <- (app_nil_l sampler),
      <- (batch_sampler_concat (dl_batch_size loader) sampler []).
    apply Forall_concat, Hall. }
  rewrite Hperm in Hsampler.
  apply forallb_forall. intros entry Hin.
  apply list_elem_of_In, list_elem_of_lookup in Hin as [i Hi].
  pose proof (lookup_lt_Some _ _ _ Hi) as Hlt.
  assert (Q i) as (entry' & He' & Hl).
  { apply (proj1 (Forall_forall _ _) Hsampler). apply list_elem_of_In, in_seq.
    unfold dataset_size, heap_entries. rewrite Hd. lia. }
  congruence.
Qed.

Lemma epoch_body_ok_loads train_loader val_loader epochs avg0 epoch w w' avg' jt jv :
  heap_dataset (w_heap w) (dl_dataset train_loader) = Some jt ->
  heap_dataset (w_heap w) (dl_dataset val_loader) = Some jv ->
  epoch_body train_loader val_loader epochs avg0 epoch w = (w', Ok avg') ->
  forallb (entry_loads (image_directory_path jt)) (entries jt) = true /\
  forallb (entry_loads (image_directory_path jv)) (entries jv) = true.
Proof.
  intros Ht Hv H. unfold epoch_body, tqdm in H. run_inv H.
  match goal with
  | Hrt : for_batches _ ?s0 (train_step _) ?v = (?v', _) |- _ =>
      pose proof (for_batches_keeps train_loader s0 _ (train_step_keeps train_loader) v)
        as Hh;
      rewrite Hrt in Hh; unfold same_heap in Hh; simpl in Hh;
      apply (for_batches_ok_loads _ _ _ _ _ _ jt (train_step_keeps train_loader)) in Hrt;
      [| exact Ht]
  end.
  split; [assumption |].
  match goal with
  | Hrv : for_batches _ _ val_step _ = _ |- _ =>
      apply (for_batches_ok_loads _ _ _ _ _ _ jv val_step_keeps) in Hrv; [exact Hrv |]
  end.
  simpl. rewrite Hh. exact Hv.
Qed.

Lemma len_of_dataset h loader :
  len_of h loader <> 0 ->
  exists j, heap_dataset h (dl_dataset loader) = Some j /\
            dl_batch_size loader <> 0 /\ entries j <> [].
Proof.
  unfold len_of, dataset_size, heap_entries. intros H.
  assert (dl_batch_size loader <> 0) as Hbs by (intros E; rewrite E in H; apply H; reflexivity).
  destruct (heap_dataset h (dl_dataset loader)) as [j|].
  - exists j. repeat split; auto. intros E. rewrite E in H. apply H.
    apply Nat.div_small. simpl. lia.
  - exfalso. apply H, Nat.div_small. simpl. lia.
Qed.

(** A run of one epoch or more that returns had both loaders ready. *)
Lemma train_model_ok_ready train_loader val_loader epochs lr w w' :
  epochs <> 0 ->
  train_model train_loader val_loader epochs lr w = (w', Ok tt) ->
  loader_ready (w_heap w) train_loader = true /\
  loader_ready (w_heap w) val_loader = true.
Proof.
  intros Hne H.
  pose proof (train_model_ok_inv _ _ _ _ _ _ H) as (_ & _ & _ & _ & _ & Hnz).
  destruct (Hnz Hne) as (_ & Hlt & Hlv).
  apply len_of_dataset in Hlt as (jt & Hdt & Hbt & Het).
  apply len_of_dataset in Hlv as (jv & Hdv & Hbv & Hev).
  unfold train_model in H. run_inv H.
  destruct epochs as [|n]; [contradiction |].
  cbn [seq foldM] in *.
  match goal with
  | Hf : bind (epoch_body _ _ _ _ _) _ _ = _ |- _ =>
      apply bind_ok_inv in Hf as (v1 & avg1 & Hb & _);
      apply (epoch_body_ok_loads _ _ _ _ _ _ _ _ jt jv) in Hb as [Hallt Hallv];
      [| exact Hdt | exact Hdv]
  end.
  split; eapply loader_ready_of; eauto.
Qed.

Lemma entry_loads_inv dir entry :
  entry_loads dir entry = true ->
  exists name prefix suffix img,
    subscript entry "image" = Ok (JStr name) /\
    subscript entry "prefix" = Ok prefix /\ subscript entry "suffix" = Ok suffix /\
    image_open (os_path_join dir name) = Ok img.
Proof.
  unfold entry_loads. intros H.
  destruct (entry_fields entry) as [[[name prefix] suffix]|] eqn:Hfld; [| discriminate].
  destruct (image_open (os_path_join dir name)) as [img|e] eqn:Hopen; [| discriminate].
  apply entry_fields_inv in Hfld as (Hn & Hp & Hs).
  exists name, prefix, suffix, img. auto.
Qed.

(** X10: a run of [train_model] of one epoch or more that returns has
    loaded every entry of both datasets: for the training and for the
    validation loader, the batch size is positive, the dataset is not
    empty, and every entry of the dataset has a string under 'image',
    has the keys 'prefix' and 'suffix', and its image opens from the
    image directory.  So one entry of either dataset that does not load
    makes every run of one epoch or more end in an exception, whatever
    the order in which the shuffled training samples are drawn.  (The
    script runs as one process, where the loader [accelerator.prepare]
    returns yields the batches of the loader it was given.) *)
Theorem returning_run_loaded_every_entry train_loader val_loader epochs lr w w' :
  epochs <> 0 ->
  train_model train_loader val_loader epochs lr w = (w', Ok tt) ->
  forall loader,
    loader = train_loader \/ loader = val_loader ->
    0 < dl_batch_size loader /\
    exists j,
      heap_dataset (w_heap w) (dl_dataset loader) = Some j /\
      entries j <> [] /\
      forall idx entry,
        entries j !! idx = Some entry ->
        exists name prefix suffix img,
          subscript entry "image" = Ok (JStr name) /\
          subscript entry "prefix" = Ok prefix /\
          subscript entry "suffix" = Ok suffix /\
          image_open (os_path_join (image_directory_path j) name) = Ok img.
Proof.
  intros Hne H loader Hl.
  destruct (train_model_ok_ready _ _ _ _ _ _ Hne H) as [Ht Hv].
  assert (loader_ready (w_heap w) loader = true) as Hr
    by (destruct Hl as [-> | ->]; assumption).
  apply loader_ready_inv in Hr as (j & Hd & Hbs & Hn & Hall).
  split; [exact Hbs |]. exists j. split; [exact Hd |]. split.
  - intros E. rewrite E in Hn. simpl in Hn. lia.
  - intros idx entry He. apply entry_loads_inv.
    apply (proj1 (Forall_lookup _ _) Hall _ _ He).
Qed.

(** *** The script from its first line to its last *)

Lemma DataLoader_init_ok_inv dataset batch_size shuffle w w' loader :
  DataLoader_init dataset batch_size shuffle w = (w', Ok loader) ->
  w' = w /\
  loader = {| dl_dataset := dataset; dl_batch_size := batch_size; dl_shuffle := shuffle |}.
Proof.
  unfold DataLoader_init. intros H.
  apply bind_ok_inv in H as (w1 & u & H1 & H).
  assert (w1 = w) as ->.
  { destruct shuffle; [| unfold ret in H1; inversion H1; reflexivity].
    apply bind_ok_inv in H1 as (w2 & n & Hlen & H1).
    apply DetectionDataset_len_ok_inv in Hlen as (-> & _).
    destruct (n =? 0)%nat; [discriminate |]. unfold ret in H1. inversion H1. reflexivity. }
  destruct (batch_size =? 0)%nat; [discriminate |].
  unfold ret in H. inversion H. auto.
Qed.

(** X9: every run of the script that returns has read both annotation
    files, neither of them empty, and every entry of both loads from
    [img_dir] (it has the three keys and its image opens); after the
    accelerator, the pretrained model and the processor it has made the
    calls of a training run of [epochs] = 8 epochs over
    ceil(len(train) / BATCH_SIZE) training batches and
    ceil(len(test) / BATCH_SIZE) validation batches per epoch, the
    scheduler being configured for 8 times the number of training
    batches; it has saved the eight checkpoints epoch_1 .. epoch_8, and
    nothing was raised on the way.  (The script runs as one process,
    where the loader [accelerator.prepare] returns has the batches and
    the length of the loader it was given.) *)
Theorem script_that_returns w w' :
  main w = (w', Ok tt) ->
  exists es_t es_v,
    read_entries train_labels = Ok es_t /\
    read_entries test_labels = Ok es_v /\
    es_t <> [] /\ es_v <> [] /\
    forallb (entry_loads img_dir) es_t = true /\
    forallb (entry_loads img_dir) es_v = true /\
    let nt := (length es_t + BATCH_SIZE - 1) / BATCH_SIZE in
    let nv := (length es_v + BATCH_SIZE - 1) / BATCH_SIZE in
    calls_since w w'
    = [CAccelerator gradient_accumulation_steps;
       CFromPretrained "AutoModelForCausalLM" CHECKPOINT;
       CFromPretrained "AutoProcessor" CHECKPOINT]
      ++ run_calls epochs (epochs * nt) nt nv /\
    omap saved_dir (calls_since w w') = map checkpoint_dir (seq 1 epochs) /\
    w_raised w' = w_raised w.
Proof.
  intros H.
  pose proof (main_propagates w) as Hprop. rewrite H in Hprop.
  unfold main in H.
  rewrite (bind_run _ _ w _ tt eq_refl) in H.
  rewrite (bind_run _ _ _ _ tt eq_refl) in H.
  rewrite (bind_run _ _ _ _ tt eq_refl) in H.
  match type of H with
  | context [bind (DetectionDataset.__init__ _ _) _ ?v] => set (v0 := v) in H
  end.
  assert (w_trace v0
          = w_trace w ++ [EvAccelerator gradient_accumulation_steps;
                          EvFromPretrained "AutoModelForCausalLM" CHECKPOINT;
                          EvFromPretrained "AutoProcessor" CHECKPOINT]) as Htr0.
  { subst v0. simpl. rewrite <- !app_assoc. reflexivity. }
  clearbody v0.
  destruct (read_entries train_labels) as [es_t|e] eqn:Ht.
  2: { pose proof (DetectionDataset_init_read train_labels img_dir v0) as E.
       rewrite Ht in E. rewrite (bind_run_raise _ _ _ _ _ E) in H. discriminate H. }
  destruct (DetectionDataset_init_ok train_labels img_dir es_t v0 Ht)
    as (train_dataset & v1 & E1 & Hd1 & _ & Htr1 & _).
  rewrite (bind_run _ _ _ _ _ E1) in H.
  destruct (read_entries test_labels) as [es_v|e] eqn:Hv.
  2: { pose proof (DetectionDataset_init_read test_labels img_dir v1) as E.
       rewrite Hv in E. rewrite (bind_run_raise _ _ _ _ _ E) in H. discriminate H. }
  destruct (DetectionDataset_init_ok test_labels img_dir es_v v1 Hv)
    as (test_dataset & v2 & E2 & Hd2 & Hsub & Htr2 & _).
  rewrite (bind_run _ _ _ _ _ E2) in H.
  apply (heap_dataset_mono _ _ _ _ Hsub) in Hd1.
  apply bind_ok_inv in H as (v3 & train_loader & Hl1 & H).
  apply DataLoader_init_ok_inv in Hl1 as [-> ->].
  apply bind_ok_inv in H as (v4 & test_loader & Hl2 & H).
  apply DataLoader_init_ok_inv in Hl2 as [-> ->].
  set (train_loader := {| dl_dataset := train_dataset; dl_batch_size := BATCH_SIZE;
                          dl_shuffle := true |}) in *.
  set (test_loader := {| dl_dataset := test_dataset; dl_batch_size := BATCH_SIZE;
                         dl_shuffle := false |}) in *.
  destruct (train_model_ok_ready train_loader test_loader epochs learning_rate v2 w'
              ltac:(discriminate) H) as [Hrt Hrv].
  unfold loader_ready in Hrt, Hrv. simpl in Hrt, Hrv. rewrite Hd1 in Hrt. rewrite Hd2 in Hrv.
  simpl in Hrt, Hrv.
  apply andb_prop in Hrt as [Hnt Hallt]. apply andb_prop in Hrv as [Hnv Hallv].
  apply Nat.ltb_lt in Hnt, Hnv.
  exists es_t, es_v.
  split; [reflexivity |]. split; [reflexivity |].
  split; [intros E; rewrite E in Hnt; simpl in Hnt; lia |].
  split; [intros E; rewrite E in Hnv; simpl in Hnv; lia |].
  split; [exact Hallt |]. split; [exact Hallv |].
  intros nt nv.
  pose proof (train_model_ok_calls _ _ _ _ _ _ H) as Hcalls. cbv zeta in Hcalls.
  apply train_model_ok_inv in H as (eps & _ & Htr' & _).
  assert (len_of (w_heap v2) train_loader = nt) as Hlen_t.
  { unfold len_of, dataset_size.
    rewrite (loader_ready_entries _ train_loader _ Hd1). reflexivity. }
  assert (len_of (w_heap v2) test_loader = nv) as Hlen_v.
  { unfold len_of, dataset_size.
    rewrite (loader_ready_entries _ test_loader _ Hd2). reflexivity. }
  rewrite (batches_in_len_of (w_heap v2) train_loader) in Hcalls
    by (simpl; unfold BATCH_SIZE; lia).
  rewrite (batches_in_len_of (w_heap v2) test_loader) in Hcalls
    by (simpl; unfold BATCH_SIZE; lia).
  rewrite Hlen_t, Hlen_v in Hcalls.
  assert (calls_since w w'
          = [CAccelerator gradient_accumulation_steps;
             CFromPretrained "AutoModelForCausalLM" CHECKPOINT;
             CFromPretrained "AutoProcessor" CHECKPOINT]
            ++ run_calls epochs (epochs * nt) nt nv) as Hall.
  { rewrite <- Hcalls. unfold calls_since, since.
    rewrite Htr', drop_app_length.
    rewrite Htr2, Htr1, Htr0, <- app_assoc, drop_app_length, map_app.
    reflexivity. }
  split; [exact Hall |]. split.
  - rewrite Hall. unfold run_calls. generalize epochs. intros n.
    rewrite !omap_app. simpl.
    apply omap_concat_map_singleton, epoch_calls_saved.
  - exact Hprop.
Qed.

End Runs.

(** * The properties on the concrete runtime *)

Lemma demo_run_returns :
  snd (train_model (RT := demo_runtime) demo_train_loader demo_test_loader 2 demo_lr demo_w)
  = Ok tt.
Proof. vm_compute. reflexivity. Qed.

Lemma training_loop_order_witness :
  calls_since demo_w
    (fst (train_model (RT := demo_runtime) demo_train_loader demo_test_loader
            2 demo_lr demo_w))
  = run_calls 2 4 2 1.
Proof.
  rewrite (training_loop_order (RT := demo_runtime) demo_train_loader demo_test_loader
             2 demo_lr demo_w _ (run_ok_eq _ _ _ demo_run_returns)).
  vm_compute. reflexivity.
Defined.

Lemma checkpoint_per_epoch_witness :
  loader_ready (RT := demo_runtime) (w_heap demo_w) demo_train_loader = true /\
  loader_ready (RT := demo_runtime) (w_heap demo_w) demo_test_loader = true /\
  (exists w', train_model (RT := demo_runtime) demo_train_loader demo_test_loader
                2 demo_lr demo_w = (w', Ok tt)) /\
  omap saved_dir
    (calls_since demo_w
       (fst (train_model (RT := demo_runtime) demo_train_loader demo_test_loader
               2 demo_lr demo_w)))
  = ["./model_checkpoints/epoch_1"; "./model_checkpoints/epoch_2"].
Proof.
  assert (loader_ready (RT := demo_runtime) (w_heap demo_w) demo_train_loader = true) as Ht
    by (vm_compute; reflexivity).
  assert (loader_ready (RT := demo_runtime) (w_heap demo_w) demo_test_loader = true) as Hv
    by (vm_compute; reflexivity).
  destruct (checkpoint_per_epoch (RT := demo_runtime) demo_train_loader demo_test_loader
              2 demo_lr demo_w) as [Hreturns Hsaves].
  split; [exact Ht |]. split; [exact Hv |]. split; [exact (Hreturns Ht Hv) |].
  destruct (Hsaves _ (run_ok_eq _ _ _ demo_run_returns)) as [Hsaved _].
  rewrite Hsaved. reflexivity.
Defined.

Lemma scheduler_linear_steps_witness :
  0 < dl_batch_size demo_train_loader /\
  count_if is_scheduler_step
    (calls_since demo_w
       (fst (train_model (RT := demo_runtime) demo_train_loader demo_test_loader
               2 demo_lr demo_w)))
  = 4.
Proof.
  assert (0 < dl_batch_size demo_train_loader) as Hbs by (vm_compute; lia).
  split; [exact Hbs |].
  destruct (scheduler_linear_steps (RT := demo_runtime) demo_train_loader demo_test_loader
              2 demo_lr demo_w _ Hbs (run_ok_eq _ _ _ demo_run_returns))
    as (_ & _ & _ & _ & Htotal).
  rewrite Htotal. vm_compute. reflexivity.
Defined.

Lemma getitem_out_of_range_witness :
  w_heap demo_w !! 1%positive
  = Some (ObjJSONLDataset (demo_jsonl train_labels ["a"; "b"; "c"; "d"; "e"])) /\
  snd (JSONLDataset.__getitem__ (RT := demo_runtime) 1%positive (-1)%Z demo_w)
  = Raise (IndexError "Index out of range") /\
  snd (JSONLDataset.__getitem__ (RT := demo_runtime) 1%positive 5%Z demo_w)
  = Raise (IndexError "Index out of range") /\
  w_data (fst (JSONLDataset.__getitem__ (RT := demo_runtime) 1%positive (-1)%Z demo_w))
  = w_data demo_w.
Proof.
  assert (w_heap demo_w !! 1%positive
          = Some (ObjJSONLDataset (demo_jsonl train_labels ["a"; "b"; "c"; "d"; "e"])))
    as Hs by (vm_compute; reflexivity).
  split; [exact Hs |].
  destruct (getitem_out_of_range (RT := demo_runtime) demo_w 1%positive _ (-1)%Z Hs)
    as (Hneg & Hdata & _); [left; vm_compute; reflexivity |].
  destruct (getitem_out_of_range (RT := demo_runtime) demo_w 1%positive _ 5%Z Hs)
    as (Hbig & _); [right; vm_compute; discriminate |].
  repeat split; assumption.
Defined.

Lemma dataset_one_entry_per_line_witness :
  exists self w1,
    DetectionDataset.__init__ (RT := demo_runtime) train_labels img_dir empty_world
    = (w1, Ok self) /\
    DetectionDataset.__len__ self w1 = (w1, Ok 5) /\
    snd (DetectionDataset.__getitem__ self 2%Z w1)
    = Ok (JStr "<OD>", JStr "c<loc_1>", "./images/c.jpg").
Proof.
  destruct (dataset_one_entry_per_line (RT := demo_runtime) train_labels img_dir
              ["a"; "b"; "c"; "d"; "e"] (map demo_entry ["a"; "b"; "c"; "d"; "e"])
              empty_world)
    as (self & w1 & Hinit & _ & _ & Hget).
  - reflexivity.
  - repeat constructor.
  - exists self, w1. split; [exact Hinit |].
    destruct (Hget w1 eq_refl) as [Hlen Hitem]. split; [exact Hlen |].
    destruct (Hitem 2%Z "c" (demo_entry "c") "c.jpg" (JStr "<OD>") (JStr "c<loc_1>"))
      as [_ Hr]; try reflexivity.
    + vm_compute. split; [discriminate | reflexivity].
    + exact Hr.
Defined.

(** C3 as stated, for every index in range of a well-formed file, fails
    where the image of an entry is missing: every line of [lost.jsonl]
    parses and the dataset built from it has length 2, and the access at
    index 1 returns no triple: it raises [FileNotFoundError]. *)
Lemma dataset_entry_image_missing :
  file_lines (Runtime := demo_runtime) "./annotations/lost.jsonl" = Ok ["a"; "lost"] /\
  Forall2 (parses (RT := demo_runtime)) ["a"; "lost"] (map demo_entry ["a"; "lost"]) /\
  exists self w1,
    DetectionDataset.__init__ (RT := demo_runtime) "./annotations/lost.jsonl" img_dir
      empty_world = (w1, Ok self) /\
    DetectionDataset.__len__ self w1 = (w1, Ok 2) /\
    snd (DetectionDataset.__getitem__ self 1%Z w1)
    = Raise (FileNotFoundError "Image file ./images/lost.jpg not found.") /\
    ~ (exists prefix suffix image,
          snd (DetectionDataset.__getitem__ self 1%Z w1) = Ok (prefix, suffix, image)).
Proof.
  split; [reflexivity |]. split; [repeat constructor |].
  exists 2%positive,
    (fst (DetectionDataset.__init__ (RT := demo_runtime) "./annotations/lost.jsonl" img_dir
            empty_world)).
  split; [apply run_ok_eq; vm_compute; reflexivity |].
  split; [vm_compute; reflexivity |].
  assert (snd (DetectionDataset.__getitem__ (RT := demo_runtime) 2%positive 1%Z
                 (fst (DetectionDataset.__init__ (RT := demo_runtime)
                         "./annotations/lost.jsonl" img_dir empty_world)))
          = Raise (FileNotFoundError "Image file ./images/lost.jpg not found.")) as Hr
    by (vm_compute; reflexivity).
  split; [exact Hr |].
  intros (prefix & suffix & image & H). rewrite Hr in H. discriminate H.
Qed.


Lemma collate_fn_nonempty_witness :
  demo_batch <> [] /\
  snd (collate_fn (RT := demo_runtime) demo_batch empty_world)
  = Ok (([JStr "<OD>"; JStr "<OD>"], ["./images/a.jpg"; "./images/b.jpg"]),
        [JStr "cat<loc_1>"; JStr "dog<loc_2>"]).
Proof.
  assert (demo_batch <> []) as Hne by (unfold demo_batch; discriminate).
  split; [exact Hne |].
  destruct (collate_fn_nonempty (RT := demo_runtime) demo_batch empty_world Hne)
    as [Hrun _].
  rewrite Hrun. reflexivity.
Defined.

(** A direct call on the empty batch, which the loader never makes: [zip]
    of no argument yields nothing, and unpacking it into three names
    raises. *)
Lemma collate_fn_empty_batch :
  snd (collate_fn (RT := demo_runtime) [] empty_world)
  = Raise (ValueError "not enough values to unpack (expected 3, got 0)") /\
  ~ (exists inputs answers,
        snd (collate_fn (RT := demo_runtime) [] empty_world) = Ok (inputs, answers)).
Proof.
  split; [reflexivity |]. intros (inputs & answers & H). discriminate H.
Qed.


Lemma dataset_immutable_witness :
  let w2 := fst (train_model (RT := demo_runtime) demo_train_loader demo_test_loader
                   2 demo_lr demo_w) in
  w_heap w2 = w_heap demo_w /\
  snd (DetectionDataset.__len__ (RT := demo_runtime) 2%positive w2) = Ok 5 /\
  match snd (DetectionDataset.__getitem__ (RT := demo_runtime) 2%positive 3%Z demo_w),
        snd (DetectionDataset.__getitem__ (RT := demo_runtime) 2%positive 3%Z w2) with
  | Ok (prefix1, suffix1, _), Ok (prefix2, suffix2, _) =>
      prefix1 = prefix2 /\ suffix1 = suffix2
  | _, _ => False
  end.
Proof.
  intros w2.
  destruct (dataset_immutable (RT := demo_runtime))
    as (_ & _ & _ & _ & Hrun & Hlen & _ & Hsame).
  split; [apply Hrun |]. split.
  - unfold w2. rewrite Hlen. vm_compute. reflexivity.
  - destruct (DetectionDataset.__getitem__ (RT := demo_runtime) 2%positive 3%Z demo_w)
      as [w1' [[[prefix1 suffix1] image1]|e1]] eqn:E1.
    + destruct (DetectionDataset.__getitem__ (RT := demo_runtime) 2%positive 3%Z w2)
        as [w2' [[[prefix2 suffix2] image2]|e2]] eqn:E2.
      * simpl. apply (Hsame 2%positive 3%Z demo_w w1' w2 w2' prefix1 suffix1 image1
                        prefix2 suffix2 image2); [apply Hrun | exact E1 | exact E2].
      * apply (f_equal snd) in E2. vm_compute in E2. discriminate E2.
    + apply (f_equal snd) in E1. vm_compute in E1. discriminate E1.
Defined.

(** ** The further properties on the concrete runtime *)

Lemma script_stops_without_datasets_witness :
  first_failure (RT := demo_runtime_no_test)
  = Some (FileNotFoundError "./annotations/test.jsonl") /\
  snd (main (RT := demo_runtime_no_test) empty_world)
  = Raise (FileNotFoundError "./annotations/test.jsonl") /\
  calls_since empty_world (fst (main (RT := demo_runtime_no_test) empty_world))
  = [CAccelerator 2; CFromPretrained "AutoModelForCausalLM" CHECKPOINT;
     CFromPretrained "AutoProcessor" CHECKPOINT].
Proof.
  assert (first_failure (RT := demo_runtime_no_test)
          = Some (FileNotFoundError "./annotations/test.jsonl")) as Hf
    by (vm_compute; reflexivity).
  split; [exact Hf |].
  destruct (script_stops_without_datasets (RT := demo_runtime_no_test) empty_world _ Hf)
    as (Hr & Hc & _).
  split; [exact Hr | exact Hc].
Defined.

Lemma getitem_entry_without_image_witness :
  snd (JSONLDataset.__getitem__ (RT := demo_runtime) 1%positive 0%Z demo_w_partial)
  = Raise (KeyError "image") /\
  w_data (fst (JSONLDataset.__getitem__ (RT := demo_runtime) 1%positive 0%Z demo_w_partial))
  = [] /\
  snd (DetectionDataset.__getitem__ (RT := demo_runtime) 2%positive 0%Z demo_w_partial)
  = Raise (KeyError "image").
Proof.
  destruct (getitem_entry_without_image (RT := demo_runtime) demo_w_partial 1%positive
              demo_partial 0%Z
              (JDict [("prefix", JStr "<OD>"); ("suffix", JStr "cat<loc_1>")]))
    as (e & Hshape & (Hr & Hd & _) & Hwrap).
  - vm_compute. reflexivity.
  - vm_compute. split; [discriminate | reflexivity].
  - reflexivity.
  - intros name. discriminate.
  - simpl in Hshape. subst e.
    destruct (Hwrap 2%positive) as (Hr' & _); [vm_compute; reflexivity |].
    split; [exact Hr | split; [exact Hd | exact Hr']].
Defined.

Lemma detection_getitem_missing_key_witness :
  snd (DetectionDataset.__getitem__ (RT := demo_runtime) 2%positive 1%Z demo_w_partial)
  = Raise (KeyError "prefix") /\
  data_since demo_w_partial
    (fst (DetectionDataset.__getitem__ (RT := demo_runtime) 2%positive 1%Z demo_w_partial))
  = [DImageOpen "./images/a.jpg"] /\
  snd (DetectionDataset.__getitem__ (RT := demo_runtime) 2%positive 2%Z demo_w_partial)
  = Raise (KeyError "suffix").
Proof.
  destruct (detection_getitem_missing_key (RT := demo_runtime) demo_w_partial 2%positive
              demo_partial 1%Z [("image", JStr "a.jpg"); ("suffix", JStr "cat<loc_1>")]
              "a.jpg" "./images/a.jpg")
    as (Hr & Hd & _).
  - vm_compute. reflexivity.
  - vm_compute. split; [discriminate | reflexivity].
  - reflexivity.
  - reflexivity.
  - reflexivity.
  - left. reflexivity.
  - destruct (detection_getitem_missing_key (RT := demo_runtime) demo_w_partial 2%positive
                demo_partial 2%Z [("image", JStr "b.jpg"); ("prefix", JStr "<OD>")]
                "b.jpg" "./images/b.jpg")
      as (Hr' & _).
    + vm_compute. reflexivity.
    + vm_compute. split; [discriminate | reflexivity].
    + reflexivity.
    + reflexivity.
    + reflexivity.
    + right. reflexivity.
    + split; [exact Hr | split; [exact Hd | exact Hr']].
Defined.

Lemma detection_getitem_domain_witness :
  DetectionDataset.__len__ (RT := demo_runtime) 2%positive demo_w = (demo_w, Ok 5) /\
  (exists t, snd (DetectionDataset.__getitem__ (RT := demo_runtime) 2%positive 4%Z demo_w)
             = Ok t) /\
  snd (DetectionDataset.__getitem__ (RT := demo_runtime) 2%positive 5%Z demo_w)
  = Raise (IndexError "Index out of range") /\
  snd (DetectionDataset.__getitem__ (RT := demo_runtime) 2%positive (-1)%Z demo_w)
  = Raise (IndexError "Index out of range").
Proof.
  assert (heap_dataset (w_heap demo_w) 2%positive
          = Some (demo_jsonl train_labels ["a"; "b"; "c"; "d"; "e"])) as Hd
    by (vm_compute; reflexivity).
  assert (Forall (fun entry => entry_loads (RT := demo_runtime) img_dir entry = true)
            (map demo_entry ["a"; "b"; "c"; "d"; "e"])) as Hall
    by (repeat (constructor; [vm_compute; reflexivity |]); constructor).
  destruct (detection_getitem_domain (RT := demo_runtime) demo_w 2%positive _ 4%Z Hd Hall)
    as (Hlen & Hin & _).
  destruct (detection_getitem_domain (RT := demo_runtime) demo_w 2%positive _ 5%Z Hd Hall)
    as (_ & _ & Hout).
  destruct (detection_getitem_domain (RT := demo_runtime) demo_w 2%positive _ (-1)%Z Hd Hall)
    as (_ & _ & Hneg).
  split; [exact Hlen |]. split; [| split].
  - apply Hin. vm_compute. split; [discriminate | reflexivity].
  - apply Hout. vm_compute. intros [_ H]. discriminate H.
  - apply Hneg. vm_compute. intros [H _]. apply H. reflexivity.
Defined.

Lemma train_model_zero_epochs_witness :
  exists w',
    train_model (RT := demo_runtime) demo_train_loader demo_test_loader 0 demo_lr demo_w
    = (w', Ok tt) /\
    since demo_w w' = [EvAdamW demo_lr; EvGetScheduler "linear" 12 0; EvPrepare].
Proof.
  destruct (train_model_zero_epochs (RT := demo_runtime) demo_train_loader demo_test_loader
              demo_lr demo_w (map demo_entry ["a"; "b"; "c"; "d"; "e"]))
    as (w' & Hrun & Hs & _).
  - vm_compute. reflexivity.
  - exists w'. split; [exact Hrun | exact Hs].
Defined.

Lemma batch_is_aligned_witness :
  snd (loader_fetch (RT := demo_runtime) demo_train_loader [3; 0] demo_w)
  = Ok (([JStr "<OD>"; JStr "<OD>"], ["./images/d.jpg"; "./images/a.jpg"]),
        [JStr "d<loc_1>"; JStr "a<loc_1>"]) /\
  data_since demo_w (fst (loader_fetch (RT := demo_runtime) demo_train_loader [3; 0] demo_w))
  = [DImageOpen "./images/d.jpg"; DImageOpen "./images/a.jpg";
     DProcessor [JStr "<OD>"; JStr "<OD>"] ["./images/d.jpg"; "./images/a.jpg"]].
Proof.
  destruct (batch_is_aligned (RT := demo_runtime) demo_train_loader demo_w
              (demo_jsonl train_labels ["a"; "b"; "c"; "d"; "e"]) [3; 0]
              [("./images/d.jpg", (JStr "<OD>", JStr "d<loc_1>", "./images/d.jpg"));
               ("./images/a.jpg", (JStr "<OD>", JStr "a<loc_1>", "./images/a.jpg"))])
    as (Hr & Hd & _).
  - vm_compute. reflexivity.
  - discriminate.
  - repeat (constructor; [vm_compute; reflexivity |]). constructor.
  - split; [exact Hr | exact Hd].
Defined.

Lemma script_that_returns_witness :
  snd (main (RT := demo_runtime) empty_world) = Ok tt /\
  calls_since empty_world (fst (main (RT := demo_runtime) empty_world))
  = [CAccelerator 2; CFromPretrained "AutoModelForCausalLM" CHECKPOINT;
     CFromPretrained "AutoProcessor" CHECKPOINT] ++ run_calls 8 16 2 1 /\
  omap saved_dir (calls_since empty_world (fst (main (RT := demo_runtime) empty_world)))
  = map checkpoint_dir (seq 1 8).
Proof.
  assert (snd (main (RT := demo_runtime) empty_world) = Ok tt) as Hret
    by (vm_compute; reflexivity).
  split; [exact Hret |].
  destruct (script_that_returns (RT := demo_runtime) empty_world _ (run_ok_eq _ _ _ Hret))
    as (es_t & es_v & Ht & Hv & _ & _ & _ & _ & Hcalls & Hsaved & _).
  split; [| exact Hsaved].
  assert (es_t = map demo_entry ["a"; "b"; "c"; "d"; "e"]) as ->
    by (vm_compute in Ht; vm_compute; congruence).
  assert (es_v = map demo_entry ["f"; "g"]) as ->
    by (vm_compute in Hv; vm_compute; congruence).
  exact Hcalls.
Defined.

Lemma returning_run_loaded_every_entry_witness :
  snd (train_model (RT := demo_runtime) demo_train_loader demo_test_loader 2 demo_lr demo_w)
  = Ok tt /\
  (exists j, heap_dataset (w_heap demo_w) (dl_dataset demo_train_loader) = Some j /\
             entries j <> []) /\
  ~ (exists w', train_model (RT := demo_runtime) demo_train_loader demo_test_loader 2 demo_lr
                  demo_w_lost = (w', Ok tt)).
Proof.
  split; [exact demo_run_returns |]. split.
  - destruct (returning_run_loaded_every_entry (RT := demo_runtime) demo_train_loader
                demo_test_loader 2 demo_lr demo_w _ ltac:(discriminate)
                (run_ok_eq _ _ _ demo_run_returns) demo_train_loader (or_introl eq_refl))
      as (_ & j & Hd & Hne & _).
    exists j. split; [exact Hd | exact Hne].
  - intros [w' H].
    destruct (returning_run_loaded_every_entry (RT := demo_runtime) demo_train_loader
                demo_test_loader 2 demo_lr demo_w_lost w' ltac:(discriminate) H
                demo_train_loader (or_introl eq_refl))
      as (_ & j & Hd & _ & Hall).
    assert (j = demo_jsonl "./annotations/lost.jsonl" ["a"; "lost"]) as ->
      by (vm_compute in Hd; vm_compute; congruence).
    destruct (Hall 1 (demo_entry "lost") eq_refl)
      as (name & prefix & suffix & img & Hn & _ & _ & Hopen).
    assert (name = "lost.jpg") as -> by (vm_compute in Hn; congruence).
    vm_compute in Hopen. discriminate Hopen.
Defined.
